(** * CasADi scalar-operation algebra: [casadi_math.hpp]

    A shallow embedding of the built-in scalar operations of CasADi
    (the per-operation classes [UnaryOperation<I>] / [BinaryOperation<I>],
    the descriptor tables of [casadi_math<T>] and the three dispatch
    routines [funNew], [derNew], [derFNew]), generic in the operand type
    [T] exactly as the C++ templates are.

    References ([const T&], [T&], [T*]) are modelled as locations of an
    explicit store, so that the routines read and write their arguments in
    the order the source does and aliasing between arguments is visible. *)

From Stdlib Require Import ZArith List String Bool Lia.
From Stdlib Require Import Floats.
From Stdlib Require Reals Lra.
Import ListNotations.

Open Scope Z_scope.

(* ------------------------------------------------------------------ *)
(** ** The operation codes *)

(** [enum Operation].  The enumerators carry the ordinals 0..27; the
    trailing enumerator [NUM_BUILT_IN_OPS] is only ever used as the number
    of operations and is kept as a constant. *)
Inductive Operation : Type :=
  | ADD | SUB | MUL | DIV
  | NEG | EXP | LOG | POW | CONSTPOW
  | SQRT | SIN | COS | TAN
  | ASIN | ACOS | ATAN
  | STEP
  | FLOOR | CEIL | EQUALITY
  | ERF | FMIN | FMAX
  | INV
  | SINH | COSH | TANH
  | PRINTME.

Definition NUM_BUILT_IN_OPS : Z := 28.

(** The integer value of an enumerator. *)
Definition op_code (I : Operation) : Z :=
  match I with
  | ADD => 0 | SUB => 1 | MUL => 2 | DIV => 3
  | NEG => 4 | EXP => 5 | LOG => 6 | POW => 7 | CONSTPOW => 8
  | SQRT => 9 | SIN => 10 | COS => 11 | TAN => 12
  | ASIN => 13 | ACOS => 14 | ATAN => 15
  | STEP => 16
  | FLOOR => 17 | CEIL => 18 | EQUALITY => 19
  | ERF => 20 | FMIN => 21 | FMAX => 22
  | INV => 23
  | SINH => 24 | COSH => 25 | TANH => 26
  | PRINTME => 27
  end.

(** The [case] label, if any, that a [switch(op)] over the 28 enumerators
    selects for the value [op] of an [unsigned char]. *)
Definition case_label (op : Z) : option Operation :=
  match op with
  | 0 => Some ADD | 1 => Some SUB | 2 => Some MUL | 3 => Some DIV
  | 4 => Some NEG | 5 => Some EXP | 6 => Some LOG | 7 => Some POW
  | 8 => Some CONSTPOW
  | 9 => Some SQRT | 10 => Some SIN | 11 => Some COS | 12 => Some TAN
  | 13 => Some ASIN | 14 => Some ACOS | 15 => Some ATAN
  | 16 => Some STEP
  | 17 => Some FLOOR | 18 => Some CEIL | 19 => Some EQUALITY
  | 20 => Some ERF | 21 => Some FMIN | 22 => Some FMAX
  | 23 => Some INV
  | 24 => Some SINH | 25 => Some COSH | 26 => Some TANH
  | 27 => Some PRINTME
  | _ => None
  end.

(** The operations in the order in which the table builders assign them. *)
Definition all_operations : list Operation :=
  [ADD; SUB; MUL; DIV; NEG; EXP; LOG; POW; CONSTPOW; SQRT; SIN; COS; TAN;
   ASIN; ACOS; ATAN; STEP; FLOOR; CEIL; EQUALITY; ERF; FMIN; FMAX; INV;
   SINH; COSH; TANH; PRINTME].

(* ------------------------------------------------------------------ *)
(** ** The operand type *)

(** The arithmetic surface the templates use of their type parameter [T]:
    conversion from the [int] and [double] literals of the source, the four
    arithmetic operators and unary minus, the [<cmath>] functions, and the
    comparisons and logical negation, whose result is converted back to
    [T] by the assignment they occur in. *)
Class Scalar (T : Type) : Type := {
  of_int : Z -> T;
  of_double : float -> T;
  Tadd : T -> T -> T;
  Tsub : T -> T -> T;
  Tmul : T -> T -> T;
  Tdiv : T -> T -> T;
  Tneg : T -> T;
  Texp : T -> T;
  Tlog : T -> T;
  Tpow : T -> T -> T;
  Tsqrt : T -> T;
  Tsin : T -> T;
  Tcos : T -> T;
  Ttan : T -> T;
  Tasin : T -> T;
  Tacos : T -> T;
  Tatan : T -> T;
  Tfloor : T -> T;
  Tceil : T -> T;
  Terf : T -> T;
  Tfmin : T -> T -> T;
  Tfmax : T -> T -> T;
  Tsinh : T -> T;
  Tcosh : T -> T;
  Ttanh : T -> T;
  Tge : T -> T -> T;
  Tle : T -> T -> T;
  Teq : T -> T -> T;
  Tnot : T -> T
}.

Declare Scope scalar_scope.
Delimit Scope scalar_scope with T.
Notation "x + y" := (Tadd x y) : scalar_scope.
Notation "x - y" := (Tsub x y) : scalar_scope.
Notation "x * y" := (Tmul x y) : scalar_scope.
Notation "x / y" := (Tdiv x y) : scalar_scope.
Notation "- x" := (Tneg x) : scalar_scope.
Notation "x >= y" := (Tge x y) : scalar_scope.
Notation "x <= y" := (Tle x y) : scalar_scope.
Notation "x == y" := (Teq x y) (at level 70, no associativity) : scalar_scope.
Notation "! x" := (Tnot x) (at level 35, right associativity) : scalar_scope.

(** The macro [M_PI] of [<cmath>]: the [double] nearest to pi. *)
Definition M_PI : float := 0x1.921fb54442d18p+1%float.

(* ------------------------------------------------------------------ *)
(** ** The store *)

(** A reference names a location.  [Caller a] is a cell of the caller;
    [Local] is the automatic variable [ff] of [derFNew], which no reference
    handed in by a caller can name. *)
Inductive loc : Type :=
  | Caller (a : nat)
  | Local.

Definition loc_eqb (l1 l2 : loc) : bool :=
  match l1, l2 with
  | Caller a, Caller b => Nat.eqb a b
  | Local, Local => true
  | _, _ => false
  end.

(** [d[i]] for a pointer [d] into the caller's cells. *)
Definition at_index (d : loc) (i : nat) : loc :=
  match d with
  | Caller a => Caller (a + i)
  | Local => Local
  end.

Notation "d .[ i ]" := (at_index d i) (at level 1, left associativity, format "d .[ i ]").

Section Store.

Context {T : Type}.

Definition mem : Type := loc -> T.

(** The assignment [*l = v]. *)
Definition store (m : mem) (l : loc) (v : T) : mem :=
  fun l' => if loc_eqb l' l then v else m l'.

End Store.

Arguments mem T : clear implicits.

Notation "m {{ l <- v }}" := (store m l v) (at level 1, left associativity, format "m {{ l  <-  v }}").

(** The output stream: the characters written so far. *)
Definition ostream : Type := string.

(** [stream << s]. *)
Definition put (stream : ostream) (s : string) : ostream := (stream ++ s)%string.

Notation "stream << s" := (put stream s) (at level 40, left associativity).

(* ------------------------------------------------------------------ *)
(** ** The operation catalogue *)

Section Catalogue.

Context {T : Type} {S : Scalar T}.

Local Open Scope scalar_scope.
Local Open Scope string_scope.

Definition timesTwo (x : T) : T := x + x.

Definition square (x : T) : T := x * x.

(** *** [UnaryOperation<I>] *)

(** The arguments [(pre, post)] of [printRoutinesUnary] in the
    specialisation of [UnaryOperation<I>].  The primary template only
    declares its print routines, [fcn] and [der]; it is instantiated for no
    code (the codes without a [UnaryOperation] specialisation are those with
    a [BinaryOperation] specialisation), which [None] records. *)
Definition printRoutinesUnary (I : Operation) : option (string * string) :=
  match I with
  | NEG => Some ("(-", ")")
  | EXP => Some ("exp(", ")")
  | LOG => Some ("log(", ")")
  | SQRT => Some ("sqrt(", ")")
  | SIN => Some ("sin(", ")")
  | COS => Some ("cos(", ")")
  | TAN => Some ("tan(", ")")
  | ASIN => Some ("asin(", ")")
  | ACOS => Some ("acos(", ")")
  | ATAN => Some ("atan(", ")")
  | STEP => Some ("(", ">=0)")
  | FLOOR => Some ("floor(", ")")
  | CEIL => Some ("ceil(", ")")
  | ERF => Some ("erf(", ")")
  | INV => Some ("(1/", ")")
  | SINH => Some ("sinh(", ")")
  | COSH => Some ("cosh(", ")")
  | TANH => Some ("tanh(", ")")
  | _ => None
  end.

Definition UnaryOperation_print (I : Operation) (stream : ostream) (x : string) : ostream :=
  match printRoutinesUnary I with
  | Some (pre, post) => stream << pre << x << post
  | None => stream
  end.

Definition UnaryOperation_printPre (I : Operation) (stream : ostream) : ostream :=
  match printRoutinesUnary I with
  | Some (pre, _) => stream << pre
  | None => stream
  end.

Definition UnaryOperation_printPost (I : Operation) (stream : ostream) : ostream :=
  match printRoutinesUnary I with
  | Some (_, post) => stream << post
  | None => stream
  end.

Definition UnaryOperation_ndeps (I : Operation) : Z := 1.

Definition UnaryOperation_isCommutative (I : Operation) : bool := true.

(** Does evaluating the function with a zero give a zero. *)
Definition UnaryOperation_f0_is_zero (I : Operation) : bool :=
  match I with
  | NEG => true
  | EXP => false
  | LOG => false
  | SQRT => true
  | SIN => true
  | COS => false
  | TAN => true
  | ASIN => true
  | ACOS => false
  | ATAN => true
  | STEP => false
  | FLOOR => true
  | CEIL => true
  | ERF => true
  | INV => false
  | SINH => true
  | COSH => false
  | TANH => true
  | _ => false
  end.

(** Function evaluation: [fcn(const T& x, T& f)]. *)
Definition UnaryOperation_fcn (I : Operation) (x f : loc) (m : mem T) : mem T :=
  match I with
  | NEG => m{{f <- - m x}}
  | EXP => m{{f <- Texp (m x)}}
  | LOG => m{{f <- Tlog (m x)}}
  | SQRT => m{{f <- Tsqrt (m x)}}
  | SIN => m{{f <- Tsin (m x)}}
  | COS => m{{f <- Tcos (m x)}}
  | TAN => m{{f <- Ttan (m x)}}
  | ASIN => m{{f <- Tasin (m x)}}
  | ACOS => m{{f <- Tacos (m x)}}
  | ATAN => m{{f <- Tatan (m x)}}
  | STEP => m{{f <- (m x >= of_double 0)}}
  | FLOOR => m{{f <- Tfloor (m x)}}
  | CEIL => m{{f <- Tceil (m x)}}
  | ERF => m{{f <- Terf (m x)}}
  | INV => m{{f <- of_double 1 / m x}}
  | SINH => m{{f <- Tsinh (m x)}}
  | COSH => m{{f <- Tcosh (m x)}}
  | TANH => m{{f <- Ttanh (m x)}}
  | _ => m
  end.

(** Partial derivatives: [der(const T& x, const T& f, T* d)]. *)
Definition UnaryOperation_der (I : Operation) (x f d : loc) (m : mem T) : mem T :=
  match I with
  | NEG => m{{d.[0] <- of_int (-1)}}
  | EXP => m{{d.[0] <- m f}}
  | LOG => m{{d.[0] <- of_int 1 / m x}}
  | SQRT => m{{d.[0] <- of_int 1 / timesTwo (m f)}}
  | SIN => m{{d.[0] <- Tcos (m x)}}
  | COS => m{{d.[0] <- - Tsin (m x)}}
  | TAN => m{{d.[0] <- of_int 1 / square (Tcos (m x))}}
  | ASIN => m{{d.[0] <- of_int 1 / Tsqrt (of_int 1 - m x * m x)}}
  | ACOS => m{{d.[0] <- of_int (-1) / Tsqrt (of_int 1 - m x * m x)}}
  | ATAN => m{{d.[0] <- of_int 1 / (of_int 1 + m x * m x)}}
  | STEP => m{{d.[0] <- of_int 0}}
  | FLOOR => m{{d.[0] <- of_int 0}}
  | CEIL => m{{d.[0] <- of_int 0}}
  | ERF => m{{d.[0] <- of_double (2 / PrimFloat.sqrt M_PI) * Texp (- m x * m x)}}
  | INV => m{{d.[0] <- - m f * m f}}
  | SINH => m{{d.[0] <- Tcosh (m x)}}
  | COSH => m{{d.[0] <- - Tsinh (m x)}}
  | TANH => m{{d.[0] <- of_int 1 - m f * m f}}
  | _ => m
  end.

(** *** [BinaryOperation<I>] *)

(** The arguments [(pre, sep, post)] of [printRoutines] in the explicit
    specialisations of [BinaryOperation<I>]. *)
Definition printRoutines (I : Operation) : option (string * string * string) :=
  match I with
  | ADD => Some ("(", "+", ")")
  | SUB => Some ("(", "-", ")")
  | MUL => Some ("(", "*", ")")
  | DIV => Some ("(", "/", ")")
  | POW => Some ("pow(", ",", ")")
  | CONSTPOW => Some ("pow(", ",", ")")
  | EQUALITY => Some ("(", "==", ")")
  | FMIN => Some ("fmin(", ",", ")")
  | FMAX => Some ("fmax(", ",", ")")
  | PRINTME => Some ("printme(", ",", ")")
  | _ => None
  end.

Definition BinaryOperation_printPre (I : Operation) (stream : ostream) : ostream :=
  match printRoutines I with
  | Some (pre, _, _) => stream << pre
  | None => UnaryOperation_printPre I stream
  end.

Definition BinaryOperation_printSep (I : Operation) (stream : ostream) : ostream :=
  match printRoutines I with
  | Some (_, sep, _) => stream << sep
  | None => stream
  end.

Definition BinaryOperation_printPost (I : Operation) (stream : ostream) : ostream :=
  match printRoutines I with
  | Some (_, _, post) => stream << post
  | None => UnaryOperation_printPost I stream
  end.

Definition BinaryOperation_print (I : Operation) (stream : ostream) (x y : string) : ostream :=
  match printRoutines I with
  | Some (pre, sep, post) => stream << pre << x << sep << y << post
  | None =>
      let stream := UnaryOperation_printPre I stream in
      let stream := stream << x in
      BinaryOperation_printPost I stream
  end.

(** Does evaluating the function with a zero give a zero. *)
Definition BinaryOperation_f00_is_zero (I : Operation) : bool :=
  match I with
  | ADD => true
  | SUB => true
  | MUL => true
  | DIV => false
  | POW => false
  | CONSTPOW => false
  | EQUALITY => false
  | FMIN => true
  | FMAX => true
  | PRINTME => false
  | _ => UnaryOperation_f0_is_zero I
  end.

Definition BinaryOperation_f0x_is_zero (I : Operation) : bool :=
  match I with
  | ADD => false
  | SUB => false
  | MUL => true
  | DIV => true
  | POW => false
  | CONSTPOW => false
  | EQUALITY => false
  | FMIN => false
  | FMAX => false
  | PRINTME => false
  | _ => UnaryOperation_f0_is_zero I
  end.

Definition BinaryOperation_fx0_is_zero (I : Operation) : bool :=
  match I with
  | ADD => false
  | SUB => false
  | MUL => true
  | DIV => false
  | POW => false
  | CONSTPOW => false
  | EQUALITY => false
  | FMIN => false
  | FMAX => false
  | PRINTME => false
  | _ => false
  end.

Definition BinaryOperation_ndeps (I : Operation) : Z :=
  match I with
  | ADD | SUB | MUL | DIV | POW | CONSTPOW | EQUALITY | FMIN | FMAX
  | PRINTME => 2
  | _ => UnaryOperation_ndeps I
  end.

Definition BinaryOperation_isCommutative (I : Operation) : bool :=
  match I with
  | ADD => true
  | SUB => false
  | MUL => true
  | DIV => false
  | POW => false
  | CONSTPOW => false
  | EQUALITY => false
  | FMIN => true
  | FMAX => true
  | PRINTME => false
  | _ => true
  end.

(** Function evaluation: [fcn(const T& x, const T& y, T& f)].  The body for
    [PRINTME] is the one compiled without [WITH_PRINTME]. *)
Definition BinaryOperation_fcn (I : Operation) (x y f : loc) (m : mem T) : mem T :=
  match I with
  | ADD => m{{f <- m x + m y}}
  | SUB => m{{f <- m x - m y}}
  | MUL => m{{f <- m x * m y}}
  | DIV => m{{f <- m x / m y}}
  | POW => m{{f <- Tpow (m x) (m y)}}
  | CONSTPOW => m{{f <- Tpow (m x) (m y)}}
  | EQUALITY => m{{f <- (m x == m y)}}
  | FMIN => m{{f <- Tfmin (m x) (m y)}}
  | FMAX => m{{f <- Tfmax (m x) (m y)}}
  | PRINTME => m{{f <- m x}}
  | _ => UnaryOperation_fcn I x f m
  end.

(** Partial derivatives: [der(const T& x, const T& y, const T& f, T* d)]. *)
Definition BinaryOperation_der (I : Operation) (x y f d : loc) (m : mem T) : mem T :=
  match I with
  | ADD =>
      let m := m{{d.[1] <- of_int 1}} in
      m{{d.[0] <- m d.[1]}}
  | SUB =>
      let m := m{{d.[0] <- of_int 1}} in
      m{{d.[1] <- of_int (-1)}}
  | MUL =>
      let m := m{{d.[0] <- m y}} in
      m{{d.[1] <- m x}}
  | DIV =>
      let m := m{{d.[0] <- of_int 1 / m y}} in
      m{{d.[1] <- - m f / m y}}
  | POW =>
      let m := m{{d.[0] <- m y * Tpow (m x) (m y - of_int 1)}} in
      m{{d.[1] <- Tlog (m x) * m f}}
  | CONSTPOW =>
      let m := m{{d.[0] <- m y * Tpow (m x) (m y - of_int 1)}} in
      m{{d.[1] <- of_int 0}}
  | EQUALITY =>
      let m := m{{d.[1] <- of_int 0}} in
      m{{d.[0] <- m d.[1]}}
  | FMIN =>
      let m := m{{d.[0] <- (m x <= m y)}} in
      m{{d.[1] <- ! m d.[0]}}
  | FMAX =>
      let m := m{{d.[0] <- (m x >= m y)}} in
      m{{d.[1] <- ! m d.[0]}}
  | PRINTME =>
      let m := m{{d.[0] <- of_int 1}} in
      m{{d.[1] <- of_int 0}}
  | _ =>
      let m := UnaryOperation_der I x f d m in
      m{{d.[1] <- of_int 0}}
  end.

End Catalogue.

(* ------------------------------------------------------------------ *)
(** ** [std::vector] as used by the table builders *)

(** [std::vector<A> ret(n, a)]. *)
Definition vector_fill {A : Type} (n : Z) (a : A) : list A := repeat a (Z.to_nat n).

Fixpoint vector_set_nat {A : Type} (v : list A) (i : nat) (a : A) : list A :=
  match v, i with
  | [], _ => []
  | _ :: v', O => a :: v'
  | b :: v', S i' => b :: vector_set_nat v' i' a
  end.

(** [ret[i] = a], for [i] within the vector. *)
Definition vector_set {A : Type} (v : list A) (i : Z) (a : A) : list A :=
  vector_set_nat v (Z.to_nat i) a.

(** [v[i]], for [i] within the vector ([dflt] stands for what lies past it). *)
Definition vector_get {A : Type} (v : list A) (i : Z) (dflt : A) : A :=
  nth (Z.to_nat i) v dflt.

(** The body shared by every table builder ([populatePrintFun] and the
    hand-written [getF00_is_zero], [getF0x_is_zero], [getFx0_is_zero]): a
    vector of [NUM_BUILT_IN_OPS] copies of [dflt], then one assignment
    [ret[I] = BinaryOperation<I>::member] per operation. *)
Definition populate {A : Type} (dflt : A) (member : Operation -> A) : list A :=
  fold_left (fun ret I => vector_set ret (op_code I) (member I))
            all_operations (vector_fill NUM_BUILT_IN_OPS dflt).

(* ------------------------------------------------------------------ *)
(** ** [casadi_math<T>] *)

Section casadi_math.

Context {T : Type} {S : Scalar T}.

(** [printFunT] and [printCompFunT]; [None] is the null function pointer. *)
Definition printFunT : Type := option (ostream -> string -> string -> ostream).
Definition printCompFunT : Type := option (ostream -> ostream).

Definition getPrintFun : list printFunT :=
  populate None (fun I => Some (BinaryOperation_print I)).

Definition getPrintPreFun : list printCompFunT :=
  populate None (fun I => Some (BinaryOperation_printPre I)).

Definition getPrintSepFun : list printCompFunT :=
  populate None (fun I => Some (BinaryOperation_printSep I)).

Definition getPrintPostFun : list printCompFunT :=
  populate None (fun I => Some (BinaryOperation_printPost I)).

Definition getNdeps : list Z := populate 0 BinaryOperation_ndeps.

Definition getCommutative : list bool := populate false BinaryOperation_isCommutative.

Definition getF00_is_zero : list bool := populate false BinaryOperation_f00_is_zero.

Definition getF0x_is_zero : list bool := populate false BinaryOperation_f0x_is_zero.

Definition getFx0_is_zero : list bool := populate false BinaryOperation_fx0_is_zero.

(** The static members, each initialised from its builder. *)
Definition print : list printFunT := getPrintFun.
Definition printPre : list printCompFunT := getPrintPreFun.
Definition printSep : list printCompFunT := getPrintSepFun.
Definition printPost : list printCompFunT := getPrintPostFun.
Definition ndeps : list Z := getNdeps.
Definition isCommutative : list bool := getCommutative.
Definition f00_is_zero : list bool := getF00_is_zero.
Definition f0x_is_zero : list bool := getF0x_is_zero.
Definition fx0_is_zero : list bool := getFx0_is_zero.

(** Evaluate a built in function. *)
Definition funNew (op : Z) (x y f : loc) (m : mem T) : mem T :=
  match case_label op with
  | Some ADD => BinaryOperation_fcn ADD x y f m
  | Some SUB => BinaryOperation_fcn SUB x y f m
  | Some MUL => BinaryOperation_fcn MUL x y f m
  | Some DIV => BinaryOperation_fcn DIV x y f m
  | Some NEG => BinaryOperation_fcn NEG x y f m
  | Some EXP => BinaryOperation_fcn EXP x y f m
  | Some LOG => BinaryOperation_fcn LOG x y f m
  | Some POW => BinaryOperation_fcn POW x y f m
  | Some CONSTPOW => BinaryOperation_fcn CONSTPOW x y f m
  | Some SQRT => BinaryOperation_fcn SQRT x y f m
  | Some SIN => BinaryOperation_fcn SIN x y f m
  | Some COS => BinaryOperation_fcn COS x y f m
  | Some TAN => BinaryOperation_fcn TAN x y f m
  | Some ASIN => BinaryOperation_fcn ASIN x y f m
  | Some ACOS => BinaryOperation_fcn ACOS x y f m
  | Some ATAN => BinaryOperation_fcn ATAN x y f m
  | Some STEP => BinaryOperation_fcn STEP x y f m
  | Some FLOOR => BinaryOperation_fcn FLOOR x y f m
  | Some CEIL => BinaryOperation_fcn CEIL x y f m
  | Some EQUALITY => BinaryOperation_fcn EQUALITY x y f m
  | Some ERF => BinaryOperation_fcn ERF x y f m
  | Some FMIN => BinaryOperation_fcn FMIN x y f m
  | Some FMAX => BinaryOperation_fcn FMAX x y f m
  | Some INV => BinaryOperation_fcn INV x y f m
  | Some SINH => BinaryOperation_fcn SINH x y f m
  | Some COSH => BinaryOperation_fcn COSH x y f m
  | Some TANH => BinaryOperation_fcn TANH x y f m
  | Some PRINTME => BinaryOperation_fcn PRINTME x y f m
  | None => m
  end.

(** Evaluate a built in derivative function. *)
Definition derNew (op : Z) (x y f d : loc) (m : mem T) : mem T :=
  match case_label op with
  | Some ADD => BinaryOperation_der ADD x y f d m
  | Some SUB => BinaryOperation_der SUB x y f d m
  | Some MUL => BinaryOperation_der MUL x y f d m
  | Some DIV => BinaryOperation_der DIV x y f d m
  | Some NEG => BinaryOperation_der NEG x y f d m
  | Some EXP => BinaryOperation_der EXP x y f d m
  | Some LOG => BinaryOperation_der LOG x y f d m
  | Some POW => BinaryOperation_der POW x y f d m
  | Some CONSTPOW => BinaryOperation_der CONSTPOW x y f d m
  | Some SQRT => BinaryOperation_der SQRT x y f d m
  | Some SIN => BinaryOperation_der SIN x y f d m
  | Some COS => BinaryOperation_der COS x y f d m
  | Some TAN => BinaryOperation_der TAN x y f d m
  | Some ASIN => BinaryOperation_der ASIN x y f d m
  | Some ACOS => BinaryOperation_der ACOS x y f d m
  | Some ATAN => BinaryOperation_der ATAN x y f d m
  | Some STEP => BinaryOperation_der STEP x y f d m
  | Some FLOOR => BinaryOperation_der FLOOR x y f d m
  | Some CEIL => BinaryOperation_der CEIL x y f d m
  | Some EQUALITY => BinaryOperation_der EQUALITY x y f d m
  | Some ERF => BinaryOperation_der ERF x y f d m
  | Some FMIN => BinaryOperation_der FMIN x y f d m
  | Some FMAX => BinaryOperation_der FMAX x y f d m
  | Some INV => BinaryOperation_der INV x y f d m
  | Some SINH => BinaryOperation_der SINH x y f d m
  | Some COSH => BinaryOperation_der COSH x y f d m
  | Some TANH => BinaryOperation_der TANH x y f d m
  | Some PRINTME => BinaryOperation_der TANH x y f d m
  | None => m
  end.

(** Evaluate the function and the derivative function.  The result is
    first computed into the automatic variable [ff] and copied to [f] at the
    end, "since it might get overwritten if y or x have the same address as
    f". *)
Definition derFNew (op : Z) (x y f d : loc) (m : mem T) : mem T :=
  let ff := Local in
  let m :=
    match case_label op with
    | Some ADD =>   let m := BinaryOperation_fcn ADD x y ff m in BinaryOperation_der ADD x y ff d m
    | Some SUB =>   let m := BinaryOperation_fcn SUB x y ff m in BinaryOperation_der SUB x y ff d m
    | Some MUL =>   let m := BinaryOperation_fcn MUL x y ff m in BinaryOperation_der MUL x y ff d m
    | Some DIV =>   let m := BinaryOperation_fcn DIV x y ff m in BinaryOperation_der DIV x y ff d m
    | Some NEG =>   let m := BinaryOperation_fcn NEG x y ff m in BinaryOperation_der NEG x y ff d m
    | Some EXP =>   let m := BinaryOperation_fcn EXP x y ff m in BinaryOperation_der EXP x y ff d m
    | Some LOG =>   let m := BinaryOperation_fcn LOG x y ff m in BinaryOperation_der LOG x y ff d m
    | Some POW =>   let m := BinaryOperation_fcn POW x y ff m in BinaryOperation_der POW x y ff d m
    | Some CONSTPOW =>   let m := BinaryOperation_fcn CONSTPOW x y ff m in BinaryOperation_der CONSTPOW x y ff d m
    | Some SQRT =>   let m := BinaryOperation_fcn SQRT x y ff m in BinaryOperation_der SQRT x y ff d m
    | Some SIN =>   let m := BinaryOperation_fcn SIN x y ff m in BinaryOperation_der SIN x y ff d m
    | Some COS =>   let m := BinaryOperation_fcn COS x y ff m in BinaryOperation_der COS x y ff d m
    | Some TAN =>   let m := BinaryOperation_fcn TAN x y ff m in BinaryOperation_der TAN x y ff d m
    | Some ASIN =>   let m := BinaryOperation_fcn ASIN x y ff m in BinaryOperation_der ASIN x y ff d m
    | Some ACOS =>   let m := BinaryOperation_fcn ACOS x y ff m in BinaryOperation_der ACOS x y ff d m
    | Some ATAN =>   let m := BinaryOperation_fcn ATAN x y ff m in BinaryOperation_der ATAN x y ff d m
    | Some STEP =>   let m := BinaryOperation_fcn STEP x y ff m in BinaryOperation_der STEP x y ff d m
    | Some FLOOR =>   let m := BinaryOperation_fcn FLOOR x y ff m in BinaryOperation_der FLOOR x y ff d m
    | Some CEIL =>   let m := BinaryOperation_fcn CEIL x y ff m in BinaryOperation_der CEIL x y ff d m
    | Some EQUALITY =>   let m := BinaryOperation_fcn EQUALITY x y ff m in BinaryOperation_der EQUALITY x y ff d m
    | Some ERF =>   let m := BinaryOperation_fcn ERF x y ff m in BinaryOperation_der ERF x y ff d m
    | Some FMIN =>   let m := BinaryOperation_fcn FMIN x y ff m in BinaryOperation_der FMIN x y ff d m
    | Some FMAX =>   let m := BinaryOperation_fcn FMAX x y ff m in BinaryOperation_der FMAX x y ff d m
    | Some INV =>   let m := BinaryOperation_fcn INV x y ff m in BinaryOperation_der INV x y ff d m
    | Some SINH =>   let m := BinaryOperation_fcn SINH x y ff m in BinaryOperation_der SINH x y ff d m
    | Some COSH =>   let m := BinaryOperation_fcn COSH x y ff m in BinaryOperation_der COSH x y ff d m
    | Some TANH =>   let m := BinaryOperation_fcn TANH x y ff m in BinaryOperation_der TANH x y ff d m
    | Some PRINTME =>   let m := BinaryOperation_fcn PRINTME x y ff m in BinaryOperation_der TANH x y ff d m
    | None => m
    end in
  m{{f <- m ff}}.

(** *** Calls on separate cells

    A call whose arguments all live in cells of their own: [x], [y] and [f]
    in cells 0, 1 and 2, the array [d] in cells 3 and 4. *)
Definition frame (x y f d0 d1 : T) : mem T :=
  fun l =>
    match l with
    | Caller 0 => x
    | Caller 1 => y
    | Caller 2 => f
    | Caller 3 => d0
    | Caller 4 => d1
    | _ => f
    end.

(** [funNew(op, x, y, f)]: the value of [f] afterwards. *)
Definition eval (op : Z) (x y f : T) : T :=
  funNew op (Caller 0) (Caller 1) (Caller 2) (frame x y f f f) (Caller 2).

(** [derNew(op, x, y, f, d)]: the values of [d[0]] and [d[1]] afterwards. *)
Definition partials (op : Z) (x y f : T) (d : T * T) : T * T :=
  let m := derNew op (Caller 0) (Caller 1) (Caller 2) (Caller 3)
                  (frame x y f (fst d) (snd d)) in
  (m (Caller 3), m (Caller 4)).

(** [derFNew(op, x, y, f, d)]: the values of [f], [d[0]] and [d[1]]
    afterwards. *)
Definition eval_and_partials (op : Z) (x y f : T) (d : T * T) : T * T * T :=
  let m := derFNew op (Caller 0) (Caller 1) (Caller 2) (Caller 3)
                   (frame x y f (fst d) (snd d)) in
  (m (Caller 2), m (Caller 3), m (Caller 4)).

End casadi_math.

(** *** Calls through the print tables

    [casadi_math<T>::print[op](stream, x, y)] and its three parts on an
    empty stream: the text written ([None] for a null table entry). *)
Definition call_print (op : Z) (x y : string) : option string :=
  option_map (fun g => g EmptyString x y) (vector_get print op None).

Definition call_printPre (op : Z) : option string :=
  option_map (fun g => g EmptyString) (vector_get printPre op None).

Definition call_printSep (op : Z) : option string :=
  option_map (fun g => g EmptyString) (vector_get printSep op None).

Definition call_printPost (op : Z) : option string :=
  option_map (fun g => g EmptyString) (vector_get printPost op None).

(** *** The table of evaluators returning by value *)

Section casadi_math_funE.

Context {T : Type} {S : Scalar T}.

(** [funTE]: a function of two references returning a [T]; [None] is the
    null function pointer. *)
Definition funTE : Type := option (loc -> loc -> mem T -> T).

(** [BinaryOperationE<I>::fcn(x, y)]: the result is computed into the
    automatic variable [ret] -- the callee's [Local] cell -- and returned. *)
Definition BinaryOperationE_fcn (I : Operation) (x y : loc) (m : mem T) : T :=
  let ret := Local in
  let m := BinaryOperation_fcn I x y ret m in
  m ret.

(** Modelled from the spec: [casadi_assert] is a macro of
    [casadi_exception.hpp], which is not among the sources; a failed
    assertion raises ([None]) and is fatal at table initialisation. *)
Definition casadi_assert (c : bool) : option unit :=
  if c then Some tt else None.

(** The loop [for(i=0; i<ret.size(); ++i) casadi_assert(ret[i]!=0)]. *)
Fixpoint assert_all_specified (ret : list funTE) : option unit :=
  match ret with
  | [] => Some tt
  | e :: ret' =>
      match casadi_assert (match e with Some _ => true | None => false end) with
      | Some _ => assert_all_specified ret'
      | None => None
      end
  end.

(** [getFunE]: the table, or [None] when an assertion fails. *)
Definition getFunE : option (list funTE) :=
  let ret := populate None (fun I => Some (BinaryOperationE_fcn I)) in
  match assert_all_specified ret with
  | Some _ => Some ret
  | None => None
  end.

Definition funE : option (list funTE) := getFunE.

End casadi_math_funE.

(** The operations whose derivative rule, as the dispatch [derNew] selects
    it, mentions the function value [f]. *)
Definition rules_reading_f : list Operation :=
  [DIV; EXP; POW; SQRT; INV; TANH; PRINTME].

(* ------------------------------------------------------------------ *)
(** ** Numeric operand types *)

(** What the descriptor flags presuppose of a numeric operand type: which
    values are finite numbers, when the comparison [x == y] holds, and the
    elementary facts about the arithmetic of [T] on finite values that the
    flags rely on.  [is_zero x] is [x == T(0)]. *)
Class Numeric (T : Type) {S : Scalar T} : Type := {
  finite : T -> Prop;
  Teqb : T -> T -> bool;
  is_zero : T -> Prop := fun x => Teqb x (of_int 0) = true;
  Teq_truth : forall x y, Teq x y = of_int (if Teqb x y then 1 else 0);
  zero_finite : forall x, is_zero x -> finite x;
  (* symmetric operators *)
  Tadd_comm : forall x y, finite x -> finite y -> Teqb (Tadd x y) (Tadd y x) = true;
  Tmul_comm : forall x y, finite x -> finite y -> Teqb (Tmul x y) (Tmul y x) = true;
  Tfmin_comm : forall x y, finite x -> finite y -> Teqb (Tfmin x y) (Tfmin y x) = true;
  Tfmax_comm : forall x y, finite x -> finite y -> Teqb (Tfmax x y) (Tfmax y x) = true;
  (* zero operands *)
  Tadd_zero : forall x y, is_zero x -> is_zero y -> is_zero (Tadd x y);
  Tsub_zero : forall x y, is_zero x -> is_zero y -> is_zero (Tsub x y);
  Tfmin_zero : forall x y, is_zero x -> is_zero y -> is_zero (Tfmin x y);
  Tfmax_zero : forall x y, is_zero x -> is_zero y -> is_zero (Tfmax x y);
  Tmul_zero_l : forall x y, is_zero x -> finite y -> is_zero (Tmul x y);
  Tmul_zero_r : forall x y, finite x -> is_zero y -> is_zero (Tmul x y);
  Tdiv_zero_l : forall x y, is_zero x -> finite y -> ~ is_zero y -> is_zero (Tdiv x y);
  Tneg_zero : forall x, is_zero x -> is_zero (Tneg x);
  Tsqrt_zero : forall x, is_zero x -> is_zero (Tsqrt x);
  Tsin_zero : forall x, is_zero x -> is_zero (Tsin x);
  Ttan_zero : forall x, is_zero x -> is_zero (Ttan x);
  Tasin_zero : forall x, is_zero x -> is_zero (Tasin x);
  Tatan_zero : forall x, is_zero x -> is_zero (Tatan x);
  Tfloor_zero : forall x, is_zero x -> is_zero (Tfloor x);
  Tceil_zero : forall x, is_zero x -> is_zero (Tceil x);
  Terf_zero : forall x, is_zero x -> is_zero (Terf x);
  Tsinh_zero : forall x, is_zero x -> is_zero (Tsinh x);
  Ttanh_zero : forall x, is_zero x -> is_zero (Ttanh x)
}.

(* ------------------------------------------------------------------ *)
(** ** [T = double] *)

Module Float64.

(** The functions of [<cmath>] that the source applies to a [double],
    [sqrt] apart (IEEE 754 fixes its result).  They belong to the C
    library, not to this repository, and are a parameter of the model. *)
Record Libm : Type := {
  exp : float -> float;
  log : float -> float;
  pow : float -> float -> float;
  sin : float -> float;
  cos : float -> float;
  tan : float -> float;
  asin : float -> float;
  acos : float -> float;
  atan : float -> float;
  floor : float -> float;
  ceil : float -> float;
  erf : float -> float;
  fmin : float -> float -> float;
  fmax : float -> float -> float;
  sinh : float -> float;
  cosh : float -> float;
  tanh : float -> float
}.

(** Conversion of an [int] to [double]. *)
Definition int_to_double (z : Z) : float :=
  SF2Prim (binary_normalize prec emax z 0 false).

(** Conversion of a [bool] to [double]. *)
Definition bool_to_double (b : bool) : float :=
  if b then 1%float else 0%float.

#[export] Instance scalar (lm : Libm) : Scalar float := {
  of_int := int_to_double;
  of_double := fun c => c;
  Tadd := PrimFloat.add;
  Tsub := PrimFloat.sub;
  Tmul := PrimFloat.mul;
  Tdiv := PrimFloat.div;
  Tneg := PrimFloat.opp;
  Texp := exp lm;
  Tlog := log lm;
  Tpow := pow lm;
  Tsqrt := PrimFloat.sqrt;
  Tsin := sin lm;
  Tcos := cos lm;
  Ttan := tan lm;
  Tasin := asin lm;
  Tacos := acos lm;
  Tatan := atan lm;
  Tfloor := floor lm;
  Tceil := ceil lm;
  Terf := erf lm;
  Tfmin := fmin lm;
  Tfmax := fmax lm;
  Tsinh := sinh lm;
  Tcosh := cosh lm;
  Ttanh := tanh lm;
  Tge := fun x y => bool_to_double (PrimFloat.leb y x);
  Tle := fun x y => bool_to_double (PrimFloat.leb x y);
  Teq := fun x y => bool_to_double (PrimFloat.eqb x y);
  Tnot := fun x => bool_to_double (PrimFloat.eqb x 0%float)
}.

(** The [double]s that are numbers: the zeros and the finite non-zero
    values, as opposed to the infinities and NaN. *)
Definition SFnumber (a : spec_float) : bool :=
  match a with
  | S754_zero _ | S754_finite _ _ _ => true
  | _ => false
  end.

(** What ISO C promises of the library functions that matters to the
    descriptor flags: Annex F has [sin], [tan], [asin], [atan], [floor],
    [ceil], [erf], [sinh] and [tanh] return a zero argument unchanged, and
    [fmin] and [fmax] return, of two numbers, one that is the least,
    respectively the greatest (which one, for equal arguments such as the
    two zeros, is left open). *)
Record AnnexF (lm : Libm) : Prop := {
  sin_zero : forall x, PrimFloat.is_zero x = true -> sin lm x = x;
  tan_zero : forall x, PrimFloat.is_zero x = true -> tan lm x = x;
  asin_zero : forall x, PrimFloat.is_zero x = true -> asin lm x = x;
  atan_zero : forall x, PrimFloat.is_zero x = true -> atan lm x = x;
  floor_zero : forall x, PrimFloat.is_zero x = true -> floor lm x = x;
  ceil_zero : forall x, PrimFloat.is_zero x = true -> ceil lm x = x;
  erf_zero : forall x, PrimFloat.is_zero x = true -> erf lm x = x;
  sinh_zero : forall x, PrimFloat.is_zero x = true -> sinh lm x = x;
  tanh_zero : forall x, PrimFloat.is_zero x = true -> tanh lm x = x;
  fmin_number : forall x y,
    PrimFloat.is_nan x = false -> PrimFloat.is_nan y = false ->
    (fmin lm x y = x \/ fmin lm x y = y) /\
    (fmin lm x y <=? x)%float = true /\ (fmin lm x y <=? y)%float = true;
  fmax_number : forall x y,
    PrimFloat.is_nan x = false -> PrimFloat.is_nan y = false ->
    (fmax lm x y = x \/ fmax lm x y = y) /\
    (x <=? fmax lm x y)%float = true /\ (y <=? fmax lm x y)%float = true
}.

End Float64.

(* ------------------------------------------------------------------ *)
(** ** [T] = the real numbers

    The operand type of exact arithmetic: every operation is the
    mathematical function it is named after. *)

Module Real.

Import Stdlib.Reals.Reals Stdlib.micromega.Lra.

Local Open Scope R_scope.

(** The real number a finite [double] stands for (0 for an infinity or a
    NaN, which stand for none). *)
Definition SF2R (f : spec_float) : R :=
  match f with
  | S754_finite s m e => IZR (cond_Zopp s (Zpos m)) * powerRZ 2 e
  | _ => 0
  end.

Definition bool_to_R (b : bool) : R := if b then 1 else 0.

Definition Rgeb (x y : R) : bool := if Rle_dec y x then true else false.

Definition Rleb (x y : R) : bool := if Rle_dec x y then true else false.

Definition Reqb (x y : R) : bool := if Req_dec_T x y then true else false.

(** The largest integer not above [x], and the least not below it. *)
Definition floor (x : R) : R := IZR (Int_part x).

Definition ceil (x : R) : R := - IZR (Int_part (- x)).

(** [pow(x, y)] for [x >= 0], where the source defines it. *)
Definition pow (x y : R) : R :=
  if Req_dec_T x 0 then (if Req_dec_T y 0 then 1 else 0) else Rpower x y.

(** The error function, [2/sqrt(pi)] times the integral of [exp(-t^2)]
    from 0 to [x]. *)
Definition gauss (t : R) : R := exp (- (t * t)).

Lemma gauss_continuous (t : R) : continuity_pt gauss t.
Proof.
  apply derivable_continuous_pt.
  unfold gauss.
  reg.
Qed.

Definition gauss_integrable (x : R) (H : 0 <= x) : Riemann_integrable gauss 0 x :=
  continuity_implies_RiemannInt H (fun t _ => gauss_continuous t).

Lemma opp_nonneg (x : R) : ~ 0 <= x -> 0 <= - x.
Proof. lra. Qed.

Definition erf (x : R) : R :=
  2 / sqrt PI *
  match Rle_dec 0 x with
  | left H => RiemannInt (gauss_integrable x H)
  | right H => - RiemannInt (gauss_integrable (- x) (opp_nonneg x H))
  end.

#[export] Instance scalar : Scalar R := {
  of_int := IZR;
  of_double := fun c => SF2R (Prim2SF c);
  Tadd := Rplus;
  Tsub := Rminus;
  Tmul := Rmult;
  Tdiv := Rdiv;
  Tneg := Ropp;
  Texp := exp;
  Tlog := ln;
  Tpow := pow;
  Tsqrt := sqrt;
  Tsin := sin;
  Tcos := cos;
  Ttan := tan;
  Tasin := asin;
  Tacos := acos;
  Tatan := atan;
  Tfloor := floor;
  Tceil := ceil;
  Terf := erf;
  Tfmin := Rmin;
  Tfmax := Rmax;
  Tsinh := sinh;
  Tcosh := cosh;
  Ttanh := tanh;
  Tge := fun x y => bool_to_R (Rgeb x y);
  Tle := fun x y => bool_to_R (Rleb x y);
  Teq := fun x y => bool_to_R (Reqb x y);
  Tnot := fun x => bool_to_R (Reqb x 0)
}.

(** A store holding 6 in cell 0, 2 in cell 1 and 0 elsewhere. *)
Definition six_two : mem R :=
  fun l => match l with Caller 0 => 6 | Caller 1 => 2 | _ => 0 end.

End Real.

(** Where the rules are compared with derivatives: the points at which the
    operation is differentiable as a real function -- away from the poles of
    [DIV], [INV] and [TAN], inside the domains of [LOG], [SQRT], [POW],
    [ASIN] and [ACOS], and off the jumps and kinks of [STEP], [FLOOR],
    [CEIL], [EQUALITY], [FMIN] and [FMAX]. *)
Module RealDomain.

Import Stdlib.Reals.Rdefinitions Stdlib.Reals.Rtrigo_def.

Local Open Scope R_scope.

Definition regular (I : Operation) (x y : R) : Prop :=
  match I with
  | DIV => y <> 0
  | LOG | SQRT | POW | CONSTPOW => 0 < x
  | TAN => cos x <> 0
  | ASIN | ACOS => -1 < x < 1
  | INV => x <> 0
  | STEP => x <> 0
  | FLOOR | CEIL => forall n : Z, IZR n <> x
  | EQUALITY | FMIN | FMAX => x <> y
  | ADD | SUB | MUL | NEG | EXP | SIN | COS | ATAN | ERF | SINH | COSH | TANH
  | PRINTME => True
  end.

(** Every operation but [ERF], [COSH] and [PRINTME]. *)
Definition first_partial_exact : list Operation :=
  [ADD; SUB; MUL; DIV; NEG; EXP; LOG; POW; CONSTPOW; SQRT; SIN; COS; TAN;
   ASIN; ACOS; ATAN; STEP; FLOOR; CEIL; EQUALITY; FMIN; FMAX; INV; SINH; TANH].

(** Every operation but [CONSTPOW]. *)
Definition second_partial_exact : list Operation :=
  [ADD; SUB; MUL; DIV; NEG; EXP; LOG; POW; SQRT; SIN; COS; TAN;
   ASIN; ACOS; ATAN; STEP; FLOOR; CEIL; EQUALITY; ERF; FMIN; FMAX; INV;
   SINH; COSH; TANH; PRINTME].

End RealDomain.

(* ------------------------------------------------------------------ *)
(** * Properties *)

(** ** The switch *)

Lemma case_label_op_code (I : Operation) : case_label (op_code I) = Some I.
Proof. destruct I; reflexivity. Qed.

Lemma case_label_default (op : Z) :
  NUM_BUILT_IN_OPS <= op -> case_label op = None.
Proof.
  unfold NUM_BUILT_IN_OPS; intros H.
  destruct op as [|p|p]; try lia.
  do 5 (destruct p as [p|p|]; try lia; try reflexivity).
Qed.

Lemma case_label_Some (op : Z) (I : Operation) :
  case_label op = Some I -> op = op_code I.
Proof.
  intros H.
  destruct (Z_lt_le_dec op NUM_BUILT_IN_OPS) as [Hlt|Hge].
  - unfold NUM_BUILT_IN_OPS in Hlt.
    destruct op as [|p|p]; try discriminate H.
    + injection H as <-; reflexivity.
    + do 5 (destruct p as [p|p|]; try lia;
            try (injection H as <-; reflexivity)).
  - rewrite (case_label_default op Hge) in H; discriminate H.
Qed.

(** ** The tables *)

Lemma populate_get {A : Type} (dflt : A) (member : Operation -> A) (I : Operation) :
  vector_get (populate dflt member) (op_code I) dflt = member I.
Proof. destruct I; reflexivity. Qed.

Lemma populate_length {A : Type} (dflt : A) (member : Operation -> A) :
  Z.of_nat (List.length (populate dflt member)) = NUM_BUILT_IN_OPS.
Proof. reflexivity. Qed.

(** ** Dispatch, for every operand type *)

(** Unfold a dispatch routine called on an enumerator down to the
    assignments of the selected operation. *)
Ltac unfold_dispatch :=
  unfold eval, partials, eval_and_partials, derFNew, derNew, funNew;
  rewrite ?case_label_op_code;
  unfold BinaryOperation_fcn, BinaryOperation_der,
         UnaryOperation_fcn, UnaryOperation_der.

(** Decide every comparison of cells left in the goal, using the
    (in)equalities between cell numbers in the context. *)
Ltac resolve_cells :=
  unfold store, frame, at_index, loc_eqb; simpl Nat.add;
  repeat match goal with
         | |- context [Nat.eqb ?a ?b] => destruct (Nat.eqb_spec a b); try lia
         end.

Section Dispatch.

Context {T : Type} {S : Scalar T}.

Local Open Scope scalar_scope.

(** For a code with no [case] label the three switches fall through. *)
Lemma funNew_default (op : Z) (x y f : loc) (m : mem T) :
  case_label op = None -> funNew op x y f m = m.
Proof. intros H; unfold funNew; rewrite H; reflexivity. Qed.

Lemma derNew_default (op : Z) (x y f d : loc) (m : mem T) :
  case_label op = None -> derNew op x y f d m = m.
Proof. intros H; unfold derNew; rewrite H; reflexivity. Qed.

(** What the dispatch [derNew] leaves in [d] for [COSH]: minus the
    hyperbolic sine of [x], and zero. *)
Lemma partials_COSH (x y f : T) (d : T * T) :
  partials (op_code COSH) x y f d = (- Tsinh x, of_int 0).
Proof. reflexivity. Qed.

(** What the dispatch [derNew] leaves in [d] for [PRINTME]: the rule of
    [TANH], [1 - f*f] and zero. *)
Lemma partials_PRINTME (x y f : T) (d : T * T) :
  partials (op_code PRINTME) x y f d = (of_int 1 - f * f, of_int 0).
Proof. reflexivity. Qed.

(** What [BinaryOperation<PRINTME>::der] itself leaves in [d]: one and
    zero.  No dispatch routine calls it. *)
Lemma BinaryOperation_der_PRINTME (x y f : T) (d : T * T) :
  let m := BinaryOperation_der PRINTME (Caller 0) (Caller 1) (Caller 2) (Caller 3)
                               (frame x y f (fst d) (snd d)) in
  (m (Caller 3), m (Caller 4)) = (of_int 1, of_int 0).
Proof. reflexivity. Qed.

(** C5.  [derFNew] evaluates the operation into its temporary and derives
    from that value: whatever cells the caller passes for [x], [y] and [f]
    -- [f] may be the cell of [x] or of [y], or of both -- and for the array
    [d] (two cells apart from those of [x], [y] and [f]), the call leaves in
    [f] the value [eval] computes from the operands as they were on entry,
    and in [d] the pair [partials] computes from those operands and that
    value. *)
Theorem derFNew_is_eval_then_partials
    (I : Operation) (x y f d : nat) (m : mem T) :
  d <> x -> d <> y -> d <> f ->
  Datatypes.S d <> x -> Datatypes.S d <> y -> Datatypes.S d <> f ->
  let fv := eval (op_code I) (m (Caller x)) (m (Caller y)) (m (Caller f)) in
  let m' := derFNew (op_code I) (Caller x) (Caller y) (Caller f) (Caller d) m in
  (m' (Caller f), (m' (Caller d).[0], m' (Caller d).[1])) =
  (fv, partials (op_code I) (m (Caller x)) (m (Caller y)) fv
                (m (Caller d).[0], m (Caller d).[1])).
Proof.
  intros H1 H2 H3 H4 H5 H6 fv m'; subst fv m'.
  destruct I; unfold_dispatch; cbv zeta; resolve_cells; reflexivity.
Qed.

(** On separate cells: the triple of [eval_and_partials] is the value of
    [eval] followed by the [partials] taken at that value. *)
Corollary eval_and_partials_compose (I : Operation) (x y f : T) (d : T * T) :
  let fv := eval (op_code I) x y f in
  eval_and_partials (op_code I) x y f d =
  (fv, fst (partials (op_code I) x y fv d), snd (partials (op_code I) x y fv d)).
Proof. destruct I, d; reflexivity. Qed.

(** Without the temporary the two steps would not compose on aliased
    storage: [funNew] followed by [derNew] with [f] in the cell of [x]
    derives at the overwritten operand. *)
Lemma funNew_then_derNew_aliased (x y : T) :
  let m := frame x y y y y in
  let m' := derNew (op_code MUL) (Caller 0) (Caller 1) (Caller 0) (Caller 3)
                   (funNew (op_code MUL) (Caller 0) (Caller 1) (Caller 0) m) in
  (m' (Caller 3), m' (Caller 4)) = (y, x * y).
Proof. reflexivity. Qed.

(** C6.  For every operation of one operand (an [I] whose entry in the
    table [ndeps] is 1), the dispatch [derNew] leaves exactly [T(0)] in
    [d[1]], whatever [x], [y], [f] and the previous content of [d]. *)
Theorem partials_unary_second_zero (I : Operation) (x y f : T) (d : T * T) :
  vector_get ndeps (op_code I) 0 = 1 ->
  snd (partials (op_code I) x y f d) = of_int 0.
Proof.
  intros H; destruct I; try discriminate H; reflexivity.
Qed.

(** C9.  For every value of the [unsigned char] [op] from
    [NUM_BUILT_IN_OPS] to 255, [funNew] and [derNew] return with the store
    as it was -- in particular [f], respectively [d[0]] and [d[1]], keep
    their values; being total functions of the store, they raise nothing. *)
Theorem out_of_range_op_unchanged
    (op : Z) (x y f d : loc) (m : mem T) (xv yv fv : T) (dv : T * T) :
  NUM_BUILT_IN_OPS <= op <= 255 ->
  funNew op x y f m = m /\
  derNew op x y f d m = m /\
  eval op xv yv fv = fv /\
  partials op xv yv fv dv = dv.
Proof.
  intros [Hlo _].
  pose proof (case_label_default op Hlo) as Hnone.
  repeat split.
  - now apply funNew_default.
  - now apply derNew_default.
  - unfold eval; rewrite funNew_default by assumption; reflexivity.
  - unfold partials; rewrite derNew_default by assumption.
    destruct dv; reflexivity.
Qed.

End Dispatch.

(** ** The descriptor tables *)

Lemma append_assoc (s1 s2 s3 : string) :
  ((s1 ++ s2) ++ s3)%string = (s1 ++ (s2 ++ s3))%string.
Proof.
  induction s1 as [|c s1 IH]; simpl.
  - reflexivity.
  - now rewrite IH.
Qed.

(** The operations with one operand are the eighteen codes that go through
    the primary template [BinaryOperation<I>]. *)
Lemma ndeps_unary (I : Operation) :
  vector_get ndeps (op_code I) 0 = 1 <->
  In I [NEG; EXP; LOG; SQRT; SIN; COS; TAN; ASIN; ACOS; ATAN; STEP; FLOOR;
        CEIL; ERF; INV; SINH; COSH; TANH].
Proof.
  split.
  - intros H; destruct I; try discriminate H; simpl; tauto.
  - intros H; simpl in H.
    repeat (destruct H as [<-|H]; [reflexivity|]); contradiction.
Qed.

(** The enumerators are 28 distinct codes below [NUM_BUILT_IN_OPS], which
    fit an [unsigned char]. *)
Theorem op_code_range (I J : Operation) :
  0 <= op_code I < NUM_BUILT_IN_OPS /\ NUM_BUILT_IN_OPS <= 255 /\
  (op_code I = op_code J -> I = J).
Proof.
  repeat split; try (destruct I; unfold NUM_BUILT_IN_OPS; simpl; lia).
  intros H.
  pose proof (case_label_op_code I) as HI.
  pose proof (case_label_op_code J) as HJ.
  rewrite H in HI; congruence.
Qed.

(** Table completeness.  Every table built by [populatePrintFun] or by
    hand has [NUM_BUILT_IN_OPS] entries, and its entry for an operation is
    the member of that operation's [BinaryOperation] class; in particular
    no print routine is left a null pointer. *)
Theorem tables_complete (I : Operation) :
  Z.of_nat (List.length print) = NUM_BUILT_IN_OPS /\
  Z.of_nat (List.length printPre) = NUM_BUILT_IN_OPS /\
  Z.of_nat (List.length printSep) = NUM_BUILT_IN_OPS /\
  Z.of_nat (List.length printPost) = NUM_BUILT_IN_OPS /\
  Z.of_nat (List.length ndeps) = NUM_BUILT_IN_OPS /\
  Z.of_nat (List.length isCommutative) = NUM_BUILT_IN_OPS /\
  Z.of_nat (List.length f00_is_zero) = NUM_BUILT_IN_OPS /\
  Z.of_nat (List.length f0x_is_zero) = NUM_BUILT_IN_OPS /\
  Z.of_nat (List.length fx0_is_zero) = NUM_BUILT_IN_OPS /\
  vector_get print (op_code I) None = Some (BinaryOperation_print I) /\
  vector_get printPre (op_code I) None = Some (BinaryOperation_printPre I) /\
  vector_get printSep (op_code I) None = Some (BinaryOperation_printSep I) /\
  vector_get printPost (op_code I) None = Some (BinaryOperation_printPost I) /\
  vector_get ndeps (op_code I) 0 = BinaryOperation_ndeps I /\
  vector_get isCommutative (op_code I) false = BinaryOperation_isCommutative I /\
  vector_get f00_is_zero (op_code I) false = BinaryOperation_f00_is_zero I /\
  vector_get f0x_is_zero (op_code I) false = BinaryOperation_f0x_is_zero I /\
  vector_get fx0_is_zero (op_code I) false = BinaryOperation_fx0_is_zero I.
Proof.
  repeat split; try apply populate_length;
    unfold print, printPre, printSep, printPost, ndeps, isCommutative,
           f00_is_zero, f0x_is_zero, fx0_is_zero,
           getPrintFun, getPrintPreFun, getPrintSepFun, getPrintPostFun,
           getNdeps, getCommutative, getF00_is_zero, getF0x_is_zero,
           getFx0_is_zero;
    now rewrite populate_get.
Qed.

(** C8.  The printer.  For every operation the table entry [print] writes
    what [printPre] writes, the first operand, what [printSep] writes, the
    second operand and what [printPost] writes when the operation has two
    operands; when it has one, [printSep] writes nothing and [print] writes
    prefix, first operand and postfix, the second operand being ignored.
    In particular [print(ADD, "a", "b")] writes [(a+b)], and
    [print(SQRT, "a", _)] and [print(INV, "a", _)] write [sqrt(a)] and
    [(1/a)] whatever the second operand. *)
Theorem print_grammar :
  (forall (I : Operation) (x y : string),
     exists pre sep post : string,
       call_printPre (op_code I) = Some pre /\
       call_printSep (op_code I) = Some sep /\
       call_printPost (op_code I) = Some post /\
       (vector_get ndeps (op_code I) 0 = 2 ->
        call_print (op_code I) x y = Some (pre ++ x ++ sep ++ y ++ post)%string) /\
       (vector_get ndeps (op_code I) 0 = 1 ->
        sep = EmptyString /\
        call_print (op_code I) x y = Some (pre ++ x ++ post)%string)) /\
  call_print (op_code ADD) "a" "b" = Some "(a+b)"%string /\
  (forall y : string, call_print (op_code SQRT) "a" y = Some "sqrt(a)"%string) /\
  (forall y : string, call_print (op_code INV) "a" y = Some "(1/a)"%string).
Proof.
  split; [|repeat split].
  intros I x y.
  unfold call_print, call_printPre, call_printSep, call_printPost,
         print, printPre, printSep, printPost, ndeps,
         getPrintFun, getPrintPreFun, getPrintSepFun, getPrintPostFun, getNdeps.
  rewrite !populate_get.
  destruct I;
    (do 3 eexists;
     split; [vm_compute; reflexivity|];
     split; [vm_compute; reflexivity|];
     split; [vm_compute; reflexivity|];
     split; intros H; try discriminate H;
     try (split; [reflexivity|]);
     simpl;
     unfold BinaryOperation_print, BinaryOperation_printPost,
            UnaryOperation_printPre, UnaryOperation_printPost, put;
     simpl; rewrite ?append_assoc; reflexivity).
Qed.

(** C10.  For each of the eighteen operations of one operand the
    zero-absorption flags read from the tables come from the single
    [f0_is_zero] of its [UnaryOperation]: [f00_is_zero] is that value,
    [f0x_is_zero] equals [f00_is_zero], and [fx0_is_zero] is false. *)
Theorem unary_zero_flags (I : Operation) :
  In I [NEG; EXP; LOG; SQRT; SIN; COS; TAN; ASIN; ACOS; ATAN; STEP; FLOOR;
        CEIL; ERF; INV; SINH; COSH; TANH] ->
  vector_get f00_is_zero (op_code I) false = UnaryOperation_f0_is_zero I /\
  vector_get f0x_is_zero (op_code I) false = vector_get f00_is_zero (op_code I) false /\
  vector_get fx0_is_zero (op_code I) false = false.
Proof.
  intros H; apply ndeps_unary in H.
  destruct I; try discriminate H; repeat split.
Qed.

Lemma unary_zero_flags_witness :
  vector_get f00_is_zero (op_code SIN) false = UnaryOperation_f0_is_zero SIN /\
  vector_get f0x_is_zero (op_code SIN) false = vector_get f00_is_zero (op_code SIN) false /\
  vector_get fx0_is_zero (op_code SIN) false = false.
Proof.
  apply (unary_zero_flags SIN).
  simpl; tauto.
Defined.

(** ** The descriptor flags against the evaluator *)

Section Flags.

Context {T : Type} {S : Scalar T} {N : Numeric T}.

(** C3, as the code has it.  Every operation of one operand is flagged
    commutative as well, so the flag alone does not let the operands be
    exchanged.  For a flagged operation of two operands ([ADD], [MUL],
    [FMIN], [FMAX]) and finite operands, [eval(op,x,y) == eval(op,y,x)]
    holds; for a flagged operation of one operand, [eval] does not depend
    on its second operand. *)
Theorem commutative_flag_sound (I : Operation) (x y f : T) :
  vector_get isCommutative (op_code I) false = true ->
  finite x -> finite y ->
  (vector_get ndeps (op_code I) 0 = 2 ->
   Teqb (eval (op_code I) x y f) (eval (op_code I) y x f) = true) /\
  (vector_get ndeps (op_code I) 0 = 1 ->
   forall y' : T, eval (op_code I) x y f = eval (op_code I) x y' f).
Proof.
  intros Hc Hx Hy.
  destruct I; try discriminate Hc;
    (split; intros Hn; try discriminate Hn; try reflexivity).
  - now apply Tadd_comm.
  - now apply Tmul_comm.
  - now apply Tfmin_comm.
  - now apply Tfmax_comm.
Qed.

(** C4.  Zero absorption.  For every operation and each of its three flags
    that is set in the tables, on finite operands: with both operands zero
    ([f00_is_zero]), with the first zero and the second not zero
    ([f0x_is_zero]), with the second zero and the first not zero
    ([fx0_is_zero]), the value [eval] computes compares equal to [T(0)]. *)
Theorem zero_absorption_sound (I : Operation) (x y f : T) :
  (vector_get f00_is_zero (op_code I) false = true ->
   is_zero x -> is_zero y ->
   is_zero (eval (op_code I) x y f)) /\
  (vector_get f0x_is_zero (op_code I) false = true ->
   is_zero x -> finite y -> ~ is_zero y ->
   is_zero (eval (op_code I) x y f)) /\
  (vector_get fx0_is_zero (op_code I) false = true ->
   finite x -> ~ is_zero x -> is_zero y ->
   is_zero (eval (op_code I) x y f)).
Proof.
  destruct I;
    (split; [|split]; intros Hflag; try discriminate Hflag; intros;
     cbv [eval funNew case_label op_code BinaryOperation_fcn
          UnaryOperation_fcn store frame loc_eqb Nat.eqb];
     eauto using zero_finite, Tadd_zero, Tsub_zero, Tfmin_zero, Tfmax_zero, Tmul_zero_l,
                 Tmul_zero_r, Tdiv_zero_l, Tneg_zero, Tsqrt_zero, Tsin_zero,
                 Ttan_zero, Tasin_zero, Tatan_zero, Tfloor_zero, Tceil_zero,
                 Terf_zero, Tsinh_zero, Ttanh_zero).
Qed.

End Flags.

(* ------------------------------------------------------------------ *)
(** ** The real numbers are a numeric operand type *)

Module RealFacts.

Import Stdlib.Reals.Reals Stdlib.micromega.Lra.
Import Real.

Local Open Scope R_scope.

Lemma Reqb_true (x y : R) : Reqb x y = true <-> x = y.
Proof. unfold Reqb; destruct (Req_dec_T x y); split; congruence. Qed.

Lemma Reqb_zero (x : R) : Reqb x (IZR 0) = true <-> x = 0.
Proof. apply Reqb_true. Qed.

Lemma Int_part_0 : Int_part 0 = 0%Z.
Proof. symmetry; apply Int_part_spec; simpl; lra. Qed.

Lemma floor_0 : floor 0 = 0.
Proof. unfold floor; now rewrite Int_part_0. Qed.

Lemma ceil_0 : ceil 0 = 0.
Proof. unfold ceil; rewrite Ropp_0, Int_part_0; simpl; lra. Qed.

Lemma erf_0 : erf 0 = 0.
Proof.
  unfold erf.
  destruct (Rle_dec 0 0) as [H|H].
  - rewrite RiemannInt_P9; apply Rmult_0_r.
  - exfalso; apply H, Rle_refl.
Qed.

Lemma tanh_0 : tanh 0 = 0.
Proof. unfold tanh; rewrite sinh_0; unfold Rdiv; apply Rmult_0_l. Qed.

Lemma sinh_pos (x : R) : 0 < x -> 0 < sinh x.
Proof.
  intros H; unfold sinh.
  assert (exp (- x) < exp x) by (apply exp_increasing; lra).
  lra.
Qed.

#[export] Instance numeric : Numeric R.
Proof.
  refine {| finite := fun _ => True; Teqb := Reqb |};
    cbn [of_int Teq Tadd Tsub Tmul Tdiv Tneg Tsqrt Tsin Ttan Tasin Tatan
         Tfloor Tceil Terf Tfmin Tfmax Tsinh Ttanh scalar];
    intros; rewrite ?Reqb_zero in *; subst.
  - destruct (Reqb x y); reflexivity.
  - exact I.
  - apply Reqb_true; lra.
  - apply Reqb_true; lra.
  - apply Reqb_true, Rmin_comm.
  - apply Reqb_true, Rmax_comm.
  - lra.
  - lra.
  - unfold Rmin; destruct (Rle_dec 0 0); reflexivity.
  - unfold Rmax; destruct (Rle_dec 0 0); reflexivity.
  - lra.
  - lra.
  - unfold Rdiv; apply Rmult_0_l.
  - lra.
  - apply sqrt_0.
  - apply sin_0.
  - apply tan_0.
  - apply asin_0.
  - apply atan_0.
  - apply floor_0.
  - apply ceil_0.
  - apply erf_0.
  - apply sinh_0.
  - apply tanh_0.
Defined.

(** *** At concrete real operands *)

(** C1.  At [x = 1] the dispatch [derNew] returns for [COSH] a first
    partial of [- sinh 1], which is not the hyperbolic sine of [x] the
    derivative rule of [cosh] calls for. *)
Theorem partials_COSH_at_one :
  fst (partials (op_code COSH) 1 0 (cosh 1) (0, 0)) = - sinh 1 /\
  fst (partials (op_code COSH) 1 0 (cosh 1) (0, 0)) <> sinh 1.
Proof.
  rewrite partials_COSH; cbn [fst Tneg Tsinh scalar].
  pose proof (sinh_pos 1 Rlt_0_1).
  split; [reflexivity|lra].
Qed.

(** C3, as stated, fails: [NEG] is flagged commutative, yet on the finite
    operands 1 and 2 [eval(NEG,1,2) = -1] and [eval(NEG,2,1) = -2] do not
    compare equal. *)
Lemma commutative_flag_NEG_not_symmetric :
  vector_get isCommutative (op_code NEG) false = true /\
  finite 1 /\ finite 2 /\
  Teqb (eval (op_code NEG) 1 2 0) (eval (op_code NEG) 2 1 0) = false.
Proof.
  repeat split.
  change (Reqb (- 1) (- 2) = false).
  unfold Reqb; destruct (Req_dec_T (- 1) (- 2)); [lra|reflexivity].
Qed.

Lemma commutative_flag_sound_witness :
  Teqb (eval (op_code ADD) 1 2 0) (eval (op_code ADD) 2 1 0) = true.
Proof.
  exact (proj1 (commutative_flag_sound ADD 1 2 0 eq_refl I I) eq_refl).
Defined.

Lemma zero_absorption_sound_witness :
  is_zero (eval (op_code MUL) 0 5 0).
Proof.
  apply (proj1 (proj2 (zero_absorption_sound MUL 0 5 0))).
  - reflexivity.
  - apply Reqb_zero; reflexivity.
  - exact I.
  - intros H; apply Reqb_zero in H; lra.
Defined.

Lemma derFNew_is_eval_then_partials_witness :
  let fv := eval (op_code DIV) 6 2 6 in
  let m' := derFNew (op_code DIV) (Caller 0) (Caller 1) (Caller 0) (Caller 2) six_two in
  (m' (Caller 0), (m' (Caller 2), m' (Caller 3))) =
  (fv, partials (op_code DIV) 6 2 fv (0, 0)).
Proof.
  apply (derFNew_is_eval_then_partials DIV 0 1 0 2 six_two); lia.
Defined.

Lemma partials_unary_second_zero_witness :
  snd (partials (op_code TANH) 1 2 3 (4, 5)) = 0.
Proof.
  exact (partials_unary_second_zero TANH 1 2 3 (4, 5) eq_refl).
Defined.

Lemma out_of_range_op_unchanged_witness :
  funNew 200 (Caller 0) (Caller 1) (Caller 0) six_two = six_two /\
  derNew 200 (Caller 0) (Caller 1) (Caller 0) (Caller 2) six_two = six_two /\
  eval 200 6 2 7 = 7 /\
  partials 200 6 2 7 (8, 9) = (8, 9).
Proof.
  apply (out_of_range_op_unchanged 200 (Caller 0) (Caller 1) (Caller 0)
                                   (Caller 2) six_two 6 2 7 (8, 9)).
  unfold NUM_BUILT_IN_OPS; lia.
Defined.

End RealFacts.

(* ------------------------------------------------------------------ *)
(** ** [double] *)

Module Float64Facts.

Import Float64.

(** *** The specification of binary64 arithmetic *)

Lemma SFcompare_refl (a : spec_float) : a <> S754_nan -> SFcompare a a = Some Eq.
Proof.
  destruct a as [s|s| |s m e]; intros H; try congruence; unfold SFcompare.
  - reflexivity.
  - destruct s; reflexivity.
  - rewrite Z.compare_refl, Pos.compare_cont_refl. destruct s; reflexivity.
Qed.

Lemma SFleb_antisym (a b : spec_float) :
  SFleb a b = true -> SFleb b a = true -> SFeqb a b = true.
Proof.
  unfold SFleb, SFeqb.
  destruct a as [s1|s1| |s1 m1 e1], b as [s2|s2| |s2 m2 e2];
    unfold SFcompare;
    try destruct s1; try destruct s2; try congruence.
  - rewrite (Z.compare_antisym e1 e2).
    change (Pos.compare_cont Eq m2 m1) with (Pos.compare m2 m1).
    change (Pos.compare_cont Eq m1 m2) with (Pos.compare m1 m2).
    rewrite (Pos.compare_antisym m1 m2).
    destruct (e1 ?= e2); simpl; try congruence.
    destruct (m1 ?= m2)%positive; simpl; congruence.
  - rewrite (Z.compare_antisym e1 e2).
    change (Pos.compare_cont Eq m2 m1) with (Pos.compare m2 m1).
    change (Pos.compare_cont Eq m1 m2) with (Pos.compare m1 m2).
    rewrite (Pos.compare_antisym m1 m2).
    destruct (e1 ?= e2); simpl; try congruence.
    destruct (m1 ?= m2)%positive; simpl; congruence.
Qed.

Lemma SFadd_comm (a b : spec_float) : SFadd prec emax a b = SFadd prec emax b a.
Proof.
  destruct a as [s1|s1| |s1 m1 e1], b as [s2|s2| |s2 m2 e2]; unfold SFadd;
    try destruct s1; try destruct s2; try reflexivity;
    cbv zeta; rewrite (Z.min_comm e2 e1); f_equal; apply Z.add_comm.
Qed.

Lemma SFmul_comm (a b : spec_float) : SFmul prec emax a b = SFmul prec emax b a.
Proof.
  destruct a as [s1|s1| |s1 m1 e1], b as [s2|s2| |s2 m2 e2]; unfold SFmul;
    rewrite ?(xorb_comm s2 s1); try reflexivity.
  now rewrite (Pos.mul_comm m2 m1), (Z.add_comm e2 e1).
Qed.

(** rounding never yields NaN from a non-negative mantissa *)
Lemma iter_pos_invariant {A : Type} (P : A -> Prop) (g : A -> A) :
  (forall a, P a -> P (g a)) -> forall n a, P a -> P (iter_pos g n a).
Proof.
  intros Hg; induction n as [n IH|n IH|]; intros a Ha; simpl; auto.
Qed.

Lemma shr_1_nonneg (mrs : shr_record) : 0 <= shr_m mrs -> 0 <= shr_m (shr_1 mrs).
Proof.
  destruct mrs as [m r s]; simpl.
  destruct m as [|[p|p|]|[p|p|]]; simpl; lia.
Qed.

Lemma shr_fexp_nonneg (m e : Z) (l : location) :
  0 <= m -> 0 <= shr_m (fst (shr_fexp prec emax m e l)).
Proof.
  intros Hm; unfold shr_fexp, shr.
  assert (H0 : 0 <= shr_m (shr_record_of_loc m l))
    by (destruct l as [|[| |]]; exact Hm).
  destruct (fexp prec emax (Zdigits2 m + e) - e); simpl; try exact H0.
  apply (iter_pos_invariant (fun mrs => 0 <= shr_m mrs)); auto using shr_1_nonneg.
Qed.

Lemma round_nearest_even_nonneg (m : Z) (l : location) :
  0 <= m -> 0 <= round_nearest_even m l.
Proof.
  intros Hm; destruct l as [|[| |]]; simpl; try lia.
  destruct (Z.even m); lia.
Qed.

Lemma binary_round_aux_not_nan (s : bool) (m e : Z) (l : location) :
  0 <= m -> binary_round_aux prec emax s m e l <> S754_nan.
Proof.
  intros Hm; unfold binary_round_aux.
  pose proof (shr_fexp_nonneg m e l Hm) as H1.
  destruct (shr_fexp prec emax m e l) as [mrs' e']; simpl in H1.
  pose proof (shr_fexp_nonneg _ e' loc_Exact
                (round_nearest_even_nonneg _ (loc_of_shr_record mrs') H1)) as H2.
  destruct (shr_fexp prec emax _ e' loc_Exact) as [mrs'' e'']; simpl in H2.
  destruct (shr_m mrs'') as [|p|p]; try lia; try discriminate.
  destruct (e'' <=? emax - prec); discriminate.
Qed.

Lemma binary_normalize_not_nan (m e : Z) (sz : bool) :
  binary_normalize prec emax m e sz <> S754_nan.
Proof.
  destruct m as [|p|p]; simpl; try discriminate;
    unfold binary_round;
    destruct (shl_align _ _ _) as [mz ez];
    apply binary_round_aux_not_nan; lia.
Qed.

Lemma SFadd_not_nan (a b : spec_float) :
  SFnumber a = true -> SFnumber b = true -> SFadd prec emax a b <> S754_nan.
Proof.
  destruct a as [s1|s1| |s1 m1 e1], b as [s2|s2| |s2 m2 e2]; simpl;
    try discriminate; intros _ _.
  - destruct s1, s2; discriminate.
  - apply binary_normalize_not_nan.
Qed.

Lemma SFmul_not_nan (a b : spec_float) :
  SFnumber a = true -> SFnumber b = true -> SFmul prec emax a b <> S754_nan.
Proof.
  destruct a as [s1|s1| |s1 m1 e1], b as [s2|s2| |s2 m2 e2]; simpl;
    try discriminate; intros _ _.
  apply binary_round_aux_not_nan; lia.
Qed.

(** primitive floats *)
Lemma is_finite_SFnumber (x : float) :
  PrimFloat.is_finite x = true <-> SFnumber (Prim2SF x) = true.
Proof.
  unfold PrimFloat.is_finite, PrimFloat.is_nan, PrimFloat.is_infinity.
  rewrite !FloatAxioms.eqb_spec, abs_spec.
  change (Prim2SF infinity) with (S754_infinity false).
  destruct (Prim2SF x) as [s|s| |s m e]; simpl.
  - destruct s; simpl; tauto.
  - destruct s; simpl; split; discriminate.
  - split; discriminate.
  - unfold SFeqb; simpl. rewrite Z.compare_refl, Pos.compare_cont_refl.
    destruct s; simpl; tauto.
Qed.

Lemma eqb_zero_SF (x : float) :
  (x =? 0)%float = true <-> exists s, Prim2SF x = S754_zero s.
Proof.
  rewrite FloatAxioms.eqb_spec.
  change (Prim2SF 0) with (S754_zero false).
  destruct (Prim2SF x) as [s|s| |s m e]; unfold SFeqb; simpl.
  - split; eauto.
  - destruct s; split; try discriminate; intros [? ?]; discriminate.
  - split; try discriminate; intros [? ?]; discriminate.
  - destruct s; split; try discriminate; intros [? ?]; discriminate.
Qed.

Lemma eqb_zero_cases (x : float) :
  (x =? 0)%float = true -> x = 0%float \/ x = (-0)%float.
Proof.
  intros H; apply eqb_zero_SF in H as [s Hs].
  destruct s; [right|left]; apply Prim2SF_inj; rewrite Hs; reflexivity.
Qed.

Lemma eqb_refl_not_nan (z : float) :
  Prim2SF z <> S754_nan -> (z =? z)%float = true.
Proof.
  intros H; rewrite FloatAxioms.eqb_spec; unfold SFeqb.
  now rewrite SFcompare_refl.
Qed.

(** *** With a C library that conforms to Annex F, [double] is a numeric
    operand type *)

Section Conforming.

Variable lm : Libm.
Hypothesis libm_ok : AnnexF lm.

Lemma finite_not_nan (x : float) :
  PrimFloat.is_finite x = true -> PrimFloat.is_nan x = false.
Proof.
  unfold PrimFloat.is_finite; intros H.
  apply negb_true_iff, orb_false_iff in H; tauto.
Qed.

Lemma leb_antisym (a b : float) :
  (a <=? b)%float = true -> (b <=? a)%float = true -> (a =? b)%float = true.
Proof.
  rewrite !leb_spec, FloatAxioms.eqb_spec; apply SFleb_antisym.
Qed.

Lemma add_comm_finite (x y : float) :
  PrimFloat.is_finite x = true -> PrimFloat.is_finite y = true ->
  (x + y =? y + x)%float = true.
Proof.
  intros Hx Hy; apply is_finite_SFnumber in Hx, Hy.
  replace (y + x)%float with (x + y)%float
    by (apply Prim2SF_inj; rewrite !add_spec; apply SFadd_comm).
  apply eqb_refl_not_nan; rewrite add_spec; now apply SFadd_not_nan.
Qed.

Lemma mul_comm_finite (x y : float) :
  PrimFloat.is_finite x = true -> PrimFloat.is_finite y = true ->
  (x * y =? y * x)%float = true.
Proof.
  intros Hx Hy; apply is_finite_SFnumber in Hx, Hy.
  replace (y * x)%float with (x * y)%float
    by (apply Prim2SF_inj; rewrite !mul_spec; apply SFmul_comm).
  apply eqb_refl_not_nan; rewrite mul_spec; now apply SFmul_not_nan.
Qed.

Lemma fmin_comm_finite (x y : float) :
  PrimFloat.is_finite x = true -> PrimFloat.is_finite y = true ->
  (fmin lm x y =? fmin lm y x)%float = true.
Proof.
  intros Hx Hy; apply finite_not_nan in Hx, Hy.
  destruct (fmin_number lm libm_ok x y Hx Hy) as [[E1|E1] [L1 L1']];
  destruct (fmin_number lm libm_ok y x Hy Hx) as [[E2|E2] [L2 L2']];
    apply leb_antisym; congruence.
Qed.

Lemma fmax_comm_finite (x y : float) :
  PrimFloat.is_finite x = true -> PrimFloat.is_finite y = true ->
  (fmax lm x y =? fmax lm y x)%float = true.
Proof.
  intros Hx Hy; apply finite_not_nan in Hx, Hy.
  destruct (fmax_number lm libm_ok x y Hx Hy) as [[E1|E1] [L1 L1']];
  destruct (fmax_number lm libm_ok y x Hy Hx) as [[E2|E2] [L2 L2']];
    apply leb_antisym; congruence.
Qed.

Lemma mul_zero_l (x y : float) :
  (x =? 0)%float = true -> PrimFloat.is_finite y = true -> (x * y =? 0)%float = true.
Proof.
  intros Hx Hy; apply is_finite_SFnumber in Hy.
  apply eqb_zero_SF in Hx as [s Hs]; apply eqb_zero_SF.
  rewrite mul_spec, Hs.
  destruct (Prim2SF y) as [s'|s'| |s' m e]; try discriminate Hy; simpl; eauto.
Qed.

Lemma mul_zero_r (x y : float) :
  PrimFloat.is_finite x = true -> (y =? 0)%float = true -> (x * y =? 0)%float = true.
Proof.
  intros Hx Hy; apply is_finite_SFnumber in Hx.
  apply eqb_zero_SF in Hy as [s Hs]; apply eqb_zero_SF.
  rewrite mul_spec, Hs.
  destruct (Prim2SF x) as [s'|s'| |s' m e]; try discriminate Hx; simpl; eauto.
Qed.

Lemma div_zero_l (x y : float) :
  (x =? 0)%float = true -> PrimFloat.is_finite y = true ->
  (y =? 0)%float <> true -> (x / y =? 0)%float = true.
Proof.
  intros Hx Hy Hnz; apply is_finite_SFnumber in Hy.
  rewrite eqb_zero_SF in Hnz.
  apply eqb_zero_SF in Hx as [s Hs]; apply eqb_zero_SF.
  rewrite div_spec, Hs.
  destruct (Prim2SF y) as [s'|s'| |s' m e]; try discriminate Hy; simpl; eauto.
  exfalso; eauto.
Qed.

#[export] Instance numeric : Numeric float (S := scalar lm).
Proof.
  refine {| finite := fun x => PrimFloat.is_finite x = true;
            Teqb := PrimFloat.eqb |};
    cbn [of_int of_double Teq Tadd Tsub Tmul Tdiv Tneg Tsqrt Tsin Ttan Tasin
         Tatan Tfloor Tceil Terf Tfmin Tfmax Tsinh Ttanh scalar];
    change (int_to_double 0) with 0%float.
  - intros x y; destruct (x =? y)%float; reflexivity.
  - intros x [->| ->]%eqb_zero_cases; reflexivity.
  - apply add_comm_finite.
  - apply mul_comm_finite.
  - apply fmin_comm_finite.
  - apply fmax_comm_finite.
  - intros x y [->| ->]%eqb_zero_cases [->| ->]%eqb_zero_cases; reflexivity.
  - intros x y [->| ->]%eqb_zero_cases [->| ->]%eqb_zero_cases; reflexivity.
  - intros x y Hx Hy.
    assert (Nx : PrimFloat.is_nan x = false)
      by (apply eqb_zero_cases in Hx as [->| ->]; reflexivity).
    assert (Ny : PrimFloat.is_nan y = false)
      by (apply eqb_zero_cases in Hy as [->| ->]; reflexivity).
    destruct (fmin_number lm libm_ok x y Nx Ny) as [[E|E] _]; now rewrite E.
  - intros x y Hx Hy.
    assert (Nx : PrimFloat.is_nan x = false)
      by (apply eqb_zero_cases in Hx as [->| ->]; reflexivity).
    assert (Ny : PrimFloat.is_nan y = false)
      by (apply eqb_zero_cases in Hy as [->| ->]; reflexivity).
    destruct (fmax_number lm libm_ok x y Nx Ny) as [[E|E] _]; now rewrite E.
  - apply mul_zero_l.
  - apply mul_zero_r.
  - apply div_zero_l.
  - intros x [->| ->]%eqb_zero_cases; reflexivity.
  - intros x [->| ->]%eqb_zero_cases; reflexivity.
  - intros x Hx; now rewrite (sin_zero lm libm_ok x Hx).
  - intros x Hx; now rewrite (tan_zero lm libm_ok x Hx).
  - intros x Hx; now rewrite (asin_zero lm libm_ok x Hx).
  - intros x Hx; now rewrite (atan_zero lm libm_ok x Hx).
  - intros x Hx; now rewrite (floor_zero lm libm_ok x Hx).
  - intros x Hx; now rewrite (ceil_zero lm libm_ok x Hx).
  - intros x Hx; now rewrite (erf_zero lm libm_ok x Hx).
  - intros x Hx; now rewrite (sinh_zero lm libm_ok x Hx).
  - intros x Hx; now rewrite (tanh_zero lm libm_ok x Hx).
Defined.

End Conforming.

(** *** At concrete operands, with any C library *)

Section WithLibm.

Variable lm : Libm.

(** C2.  With [x = f = 2.0] the dispatch [derNew] returns for [PRINTME]
    the partials [(-3, 0)] -- the rule of [TANH], [1 - f*f] -- where the
    rule of the operation itself, [BinaryOperation<PRINTME>::der], gives
    [(1, 0)]. *)
Theorem partials_PRINTME_at_two (d : float * float) :
  partials (S := scalar lm) (op_code PRINTME) 2%float 0%float 2%float d =
  ((-3)%float, 0%float) /\
  (let m := BinaryOperation_der (S := scalar lm) PRINTME (Caller 0) (Caller 1) (Caller 2) (Caller 3)
                                (frame 2%float 0%float 2%float (fst d) (snd d)) in
   (m (Caller 3), m (Caller 4)) = (1%float, 0%float)).
Proof. split; reflexivity. Qed.

(** C7.  [eval_and_partials(DIV, 6.0, 2.0)] is exactly
    [(3.0, 0.5, -1.5)], whatever [f] and [d] held before the call. *)
Theorem eval_and_partials_DIV_6_2 (f : float) (d : float * float) :
  eval_and_partials (S := scalar lm) (op_code DIV) 6%float 2%float f d =
  (3%float, 0.5%float, (-1.5)%float).
Proof. destruct d; reflexivity. Qed.

(** [eval(ADD, 2.0, 3.0) = 5.0] and
    [partials(ADD, 2.0, 3.0, 5.0) = (1.0, 1.0)]. *)
Theorem eval_ADD_2_3 (f : float) (d : float * float) :
  eval (S := scalar lm) (op_code ADD) 2%float 3%float f = 5%float /\
  partials (S := scalar lm) (op_code ADD) 2%float 3%float 5%float d =
  (1%float, 1%float).
Proof. split; reflexivity. Qed.

(** [eval(MUL, 0.0, 7.0) = 0.0], and the three zero-absorption flags of
    [MUL] are set. *)
Theorem eval_MUL_0_7 (f : float) :
  eval (S := scalar lm) (op_code MUL) 0%float 7%float f = 0%float /\
  vector_get f00_is_zero (op_code MUL) false = true /\
  vector_get f0x_is_zero (op_code MUL) false = true /\
  vector_get fx0_is_zero (op_code MUL) false = true.
Proof. repeat split. Qed.

(** [partials(FMIN, 1.5, 2.5, 1.5) = (1.0, 0.0)]. *)
Theorem partials_FMIN_scenario (d : float * float) :
  partials (S := scalar lm) (op_code FMIN) 1.5%float 2.5%float 1.5%float d =
  (1%float, 0%float).
Proof. reflexivity. Qed.

(** [partials(TANH, 0.0, y, 0.0)] has first partial [1.0], whatever [y]. *)
Theorem partials_TANH_at_zero (y : float) (d : float * float) :
  fst (partials (S := scalar lm) (op_code TANH) 0%float y 0%float d) = 1%float.
Proof. reflexivity. Qed.

End WithLibm.

End Float64Facts.

(* ------------------------------------------------------------------ *)
(** * Effects on the store *)

Lemma loc_eqb_eq (l1 l2 : loc) : loc_eqb l1 l2 = true <-> l1 = l2.
Proof.
  destruct l1 as [a|], l2 as [b|]; simpl; split; intros H;
    try discriminate H; try reflexivity.
  - apply Nat.eqb_eq in H; now subst.
  - injection H as ->; apply Nat.eqb_refl.
Qed.

Lemma loc_eqb_refl (l : loc) : loc_eqb l l = true.
Proof. now apply loc_eqb_eq. Qed.

Lemma loc_eqb_neq (l1 l2 : loc) : l1 <> l2 -> loc_eqb l1 l2 = false.
Proof.
  intros H; destruct (loc_eqb l1 l2) eqn:E; [|reflexivity].
  now apply loc_eqb_eq in E.
Qed.

Section StoreEffects.

Context {T : Type} {S : Scalar T}.

Lemma store_same (m : mem T) (l : loc) (v : T) : m{{l <- v}} l = v.
Proof. unfold store; now rewrite loc_eqb_refl. Qed.

Lemma store_other (m : mem T) (l l' : loc) (v : T) :
  l' <> l -> m{{l <- v}} l' = m l'.
Proof. intros H; unfold store; now rewrite loc_eqb_neq. Qed.

Ltac store_rw :=
  repeat (rewrite store_same ||
          rewrite store_other by (assumption || discriminate || congruence)).

(** [funNew] may work in place.  Whatever locations are passed -- [f] may
    be the cell of [x] or of [y] -- and for every code [op], the call leaves
    in [f] the value [eval] computes from the operands as they were on
    entry, and changes no other location. *)
Theorem funNew_in_place (op : Z) (x y f : loc) (m : mem T) :
  funNew op x y f m f = eval op (m x) (m y) (m f) /\
  (forall l : loc, l <> f -> funNew op x y f m l = m l).
Proof.
  unfold eval, funNew.
  destruct (case_label op) as [I|]; [|split; reflexivity].
  destruct I; unfold BinaryOperation_fcn, UnaryOperation_fcn;
    (split; [rewrite store_same; reflexivity
            |intros l Hl; now rewrite store_other]).
Qed.


Lemma at_index_apart (a : nat) : (Caller a).[0] <> (Caller a).[1].
Proof. simpl; intros H; injection H; lia. Qed.

(** [derNew] writes the two cells of [d] and nothing else.  With [d] apart
    from [x], [y] and [f] (which may alias one another), the call leaves in
    [d] the pair [partials] computes from the values on entry, for every
    code [op]. *)
Theorem derNew_effect (op : Z) (x y f : loc) (a : nat) (m : mem T) :
  let d := Caller a in
  x <> d.[0] -> x <> d.[1] -> y <> d.[0] -> y <> d.[1] ->
  f <> d.[0] -> f <> d.[1] ->
  let m' := derNew op x y f d m in
  (m' d.[0], m' d.[1]) = partials op (m x) (m y) (m f) (m d.[0], m d.[1]) /\
  (forall l : loc, l <> d.[0] -> l <> d.[1] -> m' l = m l).
Proof.
  intros d Hx0 Hx1 Hy0 Hy1 Hf0 Hf1 m'; subst m'.
  subst d.
  pose proof (at_index_apart a) as H01.
  assert (H10 : (Caller a).[1] <> (Caller a).[0])
    by (intros E; apply H01; now symmetry).
  unfold partials, derNew.
  destruct (case_label op) as [I|]; [|split; [reflexivity|reflexivity]].
  destruct I; unfold BinaryOperation_der, UnaryOperation_der; cbv zeta;
    (split; [store_rw; reflexivity | intros l Hl0 Hl1; store_rw; reflexivity]).
Qed.

(** [derFNew] changes no cell of the caller other than [f], [d[0]] and
    [d[1]], for every code [op] and whatever the aliasing of its arguments;
    in particular the operands are never written unless they are passed as
    outputs. *)
Theorem derFNew_frame (op : Z) (x y f d : loc) (m : mem T) (c : nat) :
  Caller c <> f -> Caller c <> d.[0] -> Caller c <> d.[1] ->
  derFNew op x y f d m (Caller c) = m (Caller c).
Proof.
  intros Hf H0 H1; unfold derFNew; cbv zeta.
  destruct (case_label op) as [I|]; [|now store_rw].
  destruct I; unfold BinaryOperation_fcn, BinaryOperation_der,
                     UnaryOperation_fcn, UnaryOperation_der; cbv zeta;
    now store_rw.
Qed.

(** For a code from [NUM_BUILT_IN_OPS] to 255, [derFNew] -- unlike [funNew]
    and [derNew], which change nothing -- assigns [f]: its switch falls
    through and the final [f = ff] copies the temporary, which was never
    set, so [f] receives whatever the temporary happens to hold.  Nothing
    else changes. *)
Theorem derFNew_out_of_range (op : Z) (x y f d : loc) (m : mem T) :
  NUM_BUILT_IN_OPS <= op <= 255 ->
  derFNew op x y f d m = m{{f <- m Local}}.
Proof.
  intros [H _]; unfold derFNew.
  now rewrite (case_label_default op H).
Qed.

(** For each of the 28 operations the outputs are functions of the
    operands alone: what [f] and [d] held before the call has no influence
    on what [eval], [partials] (given [f]) and [eval_and_partials] return. *)
Theorem outputs_depend_on_operands_only
    (I : Operation) (x y f f' : T) (d d' : T * T) :
  eval (op_code I) x y f = eval (op_code I) x y f' /\
  partials (op_code I) x y f d = partials (op_code I) x y f d' /\
  eval_and_partials (op_code I) x y f d = eval_and_partials (op_code I) x y f' d'.
Proof. destruct I; repeat split. Qed.

(** For an operation of one operand, no routine reads the second operand:
    the store after [funNew], [derNew] or [derFNew] is the same whichever
    location is passed for [y]. *)
Theorem unary_ignores_second_operand
    (I : Operation) (x y y' f d : loc) (m : mem T) :
  vector_get ndeps (op_code I) 0 = 1 ->
  funNew (op_code I) x y f m = funNew (op_code I) x y' f m /\
  derNew (op_code I) x y f d m = derNew (op_code I) x y' f d m /\
  derFNew (op_code I) x y f d m = derFNew (op_code I) x y' f d m.
Proof.
  intros H; destruct I; try discriminate H; repeat split.
Qed.

(** When [f] is a cell of its own (and [d] is apart from [x], [y], [f]),
    [derFNew] leaves every cell of the caller as [funNew] followed by
    [derNew] does. *)
Theorem derFNew_is_funNew_then_derNew
    (I : Operation) (x y f d c : nat) (m : mem T) :
  f <> x -> f <> y -> d <> x -> d <> y -> d <> f ->
  Datatypes.S d <> x -> Datatypes.S d <> y -> Datatypes.S d <> f ->
  derFNew (op_code I) (Caller x) (Caller y) (Caller f) (Caller d) m (Caller c) =
  derNew (op_code I) (Caller x) (Caller y) (Caller f) (Caller d)
         (funNew (op_code I) (Caller x) (Caller y) (Caller f) m) (Caller c).
Proof.
  intros.
  destruct I; unfold_dispatch; cbv zeta; resolve_cells; reflexivity.
Qed.

(** Apart from the seven rules of [rules_reading_f], no derivative rule
    depends on the function value it is handed. *)
Theorem partials_ignore_f (I : Operation) (x y f f' : T) (d : T * T) :
  ~ In I rules_reading_f ->
  partials (op_code I) x y f d = partials (op_code I) x y f' d.
Proof.
  intros H; destruct I; try reflexivity; exfalso; apply H; simpl; tauto.
Qed.
(** [getFunE] never fails its assertion: the table [funE] is built, has
    [NUM_BUILT_IN_OPS] entries, none of them null, and the entry of each
    operation, called on the caller's cells, returns what [eval] computes
    from their values (whether or not [x] and [y] are the same cell). *)
Theorem funE_complete :
  exists table : list funTE,
    funE = Some table /\
    Z.of_nat (List.length table) = NUM_BUILT_IN_OPS /\
    forall I : Operation,
    exists g, vector_get table (op_code I) None = Some g /\
      forall (a b : nat) (m : mem T) (f : T),
        g (Caller a) (Caller b) m = eval (op_code I) (m (Caller a)) (m (Caller b)) f.
Proof.
  eexists; split; [reflexivity|split; [reflexivity|]].
  intros I; rewrite populate_get; eexists; split; [reflexivity|].
  intros a b m f.
  destruct I; unfold BinaryOperationE_fcn, BinaryOperation_fcn,
                     UnaryOperation_fcn; cbv zeta;
    rewrite store_same; reflexivity.
Qed.

End StoreEffects.

(** ** Printing and descriptors *)

Lemma append_cancel_l (s a b : string) : (s ++ a)%string = (s ++ b)%string -> a = b.
Proof.
  induction s as [|c s IH]; simpl; intros H; [exact H|].
  injection H as H; auto.
Qed.

Lemma length_append (a b : string) :
  String.length (a ++ b) = (String.length a + String.length b)%nat.
Proof. induction a as [|c a IH]; simpl; [reflexivity|now rewrite IH]. Qed.

Lemma append_fixed (a b : string) : (a ++ b)%string = b -> a = EmptyString.
Proof.
  intros H; apply (f_equal String.length) in H.
  rewrite length_append in H.
  destruct a; [reflexivity|simpl in H; lia].
Qed.

(** [print] against its parts, on any stream.  For an operation of two
    operands, [print(stream,x,y)] is [printPre], [<< x], [printSep], [<< y],
    [printPost] in sequence, as the comment in the source says.  For an
    operation of one operand, [print(stream,x,y)] is
    [UnaryOperation<I>::print(stream,x)], that is [printPre], [<< x],
    [printPost]; the five-step sequence of the comment writes [y] as well,
    and agrees with [print] only when [y] is empty. *)
Theorem print_composes (I : Operation) (stream : ostream) (x y : string) :
  (vector_get ndeps (op_code I) 0 = 2 ->
   BinaryOperation_print I stream x y =
   BinaryOperation_printPost I
     (BinaryOperation_printSep I (BinaryOperation_printPre I stream << x) << y)) /\
  (vector_get ndeps (op_code I) 0 = 1 ->
   BinaryOperation_print I stream x y = UnaryOperation_print I stream x /\
   UnaryOperation_print I stream x =
   UnaryOperation_printPost I (UnaryOperation_printPre I stream << x) /\
   (BinaryOperation_printPost I
      (BinaryOperation_printSep I (BinaryOperation_printPre I stream << x) << y) =
    BinaryOperation_print I stream x y <-> y = EmptyString)).
Proof.
  split; intros H; destruct I; try discriminate H; try reflexivity.
  all: split; [reflexivity|split; [reflexivity|]].
  all: unfold BinaryOperation_print, BinaryOperation_printPost,
         BinaryOperation_printSep, BinaryOperation_printPre,
         UnaryOperation_printPre, UnaryOperation_printPost, put; simpl;
       rewrite !append_assoc.
  all: split; [intros E; do 2 apply append_cancel_l in E;
                simpl in E;
                repeat (injection E as E);
                apply append_cancel_l in E || idtac;
                now apply append_fixed in E
              | intros ->; reflexivity].
Qed.

(** Invariants of the descriptor tables.  Every operation has one or two
    operands; an operation not flagged commutative has two; a commutative
    operation of two operands has equal [f0x_is_zero] and [fx0_is_zero];
    [fx0_is_zero] implies [f0x_is_zero] and [f00_is_zero]; and [printSep]
    writes a non-empty separator exactly for the operations of two
    operands. *)
Theorem descriptor_invariants (I : Operation) :
  (vector_get ndeps (op_code I) 0 = 1 \/ vector_get ndeps (op_code I) 0 = 2) /\
  (vector_get isCommutative (op_code I) false = false ->
   vector_get ndeps (op_code I) 0 = 2) /\
  (vector_get ndeps (op_code I) 0 = 2 ->
   vector_get isCommutative (op_code I) false = true ->
   vector_get f0x_is_zero (op_code I) false = vector_get fx0_is_zero (op_code I) false) /\
  (vector_get fx0_is_zero (op_code I) false = true ->
   vector_get f0x_is_zero (op_code I) false = true /\
   vector_get f00_is_zero (op_code I) false = true) /\
  (vector_get ndeps (op_code I) 0 = 2 <-> call_printSep (op_code I) <> Some EmptyString).
Proof.
  destruct I; repeat split; intros;
    try reflexivity; try (now left); try (now right);
    try match goal with
        | H : _ = _ |- _ => discriminate H
        | H : _ <> _ |- _ => exfalso; apply H; reflexivity
        | |- _ <> _ => intros E; vm_compute in E; discriminate E
        end.
Qed.

(* ------------------------------------------------------------------ *)
(** * The derivative rules against the derivatives, over the reals *)

Module Calculus.

Import Stdlib.Reals.Reals Stdlib.micromega.Lra.
Import Real RealFacts RealDomain.

Local Open Scope R_scope.

(** Reduce [eval] and [partials] at an enumerator to the real functions they
    compute. *)
Ltac real_rules :=
  cbv [eval partials funNew derNew case_label op_code
       BinaryOperation_fcn BinaryOperation_der
       UnaryOperation_fcn UnaryOperation_der
       store frame loc_eqb Nat.eqb at_index Nat.add fst snd
       timesTwo square scalar of_int of_double
       Tadd Tsub Tmul Tdiv Tneg Texp Tlog Tpow Tsqrt Tsin Tcos Ttan Tasin
       Tacos Tatan Tfloor Tceil Terf Tfmin Tfmax Tsinh Tcosh Ttanh
       Tge Tle Teq Tnot].


Lemma dlim_value (f : R -> R) (x l l' : R) :
  l = l' -> derivable_pt_lim f x l -> derivable_pt_lim f x l'.
Proof. now intros ->. Qed.

Lemma dlim_local_const (c : R) (f : R -> R) (x a b : R) :
  a < x < b -> (forall z, a < z < b -> f z = c) -> derivable_pt_lim f x 0.
Proof.
  intros Hx Hf.
  apply (derivable_pt_lim_locally_ext (fct_cte c) f x a b 0 Hx).
  - intros z Hz; symmetry; now apply Hf.
  - apply derivable_pt_lim_const.
Qed.

Lemma dlim_local_id (f : R -> R) (x a b : R) :
  a < x < b -> (forall z, a < z < b -> f z = z) -> derivable_pt_lim f x 1.
Proof.
  intros Hx Hf.
  apply (derivable_pt_lim_locally_ext id f x a b 1 Hx).
  - intros z Hz; symmetry; now apply Hf.
  - apply derivable_pt_lim_id.
Qed.

Lemma SF2R_zero : SF2R (Prim2SF 0) = 0.
Proof. reflexivity. Qed.

Lemma SF2R_one : SF2R (Prim2SF 1) = 1.
Proof.
  change (Prim2SF 1) with (S754_finite false 4503599627370496 (-52)).
  unfold SF2R, cond_Zopp, powerRZ.
  rewrite <- (Rinv_l (2 ^ Pos.to_nat 52)) by (apply pow_nonzero; lra).
  rewrite Rmult_comm; f_equal.
  change 2 with (IZR 2); rewrite pow_IZR; reflexivity.
Qed.

Lemma pow_pos (x y : R) : 0 < x -> pow x y = Rpower x y.
Proof.
  intros H; unfold pow; destruct (Req_dec_T x 0); [lra|reflexivity].
Qed.

Lemma floor_between (n : Z) (z : R) : IZR n < z < IZR n + 1 -> floor z = IZR n.
Proof.
  intros H; unfold floor; f_equal; symmetry.
  apply Int_part_spec; lra.
Qed.

Lemma not_integer_between (x : R) :
  (forall n : Z, IZR n <> x) -> IZR (Int_part x) < x < IZR (Int_part x) + 1.
Proof.
  intros H; pose proof (base_Int_part x) as [H1 H2].
  specialize (H (Int_part x)); lra.
Qed.

Lemma cosh_nonzero (x : R) : cosh x <> 0.
Proof.
  unfold cosh; pose proof (exp_pos x); pose proof (exp_pos (- x)); lra.
Qed.

(** The derivative of each evaluation rule. *)
Lemma d_add (x y : R) : derivable_pt_lim (fun x' => x' + y) x 1.
Proof.
  apply (dlim_value _ _ (1 + 0)); [lra|].
  apply (derivable_pt_lim_plus id (fct_cte y)).
  - apply derivable_pt_lim_id.
  - apply derivable_pt_lim_const.
Qed.

Lemma d_sub (x y : R) : derivable_pt_lim (fun x' => x' - y) x 1.
Proof.
  apply (dlim_value _ _ (1 - 0)); [lra|].
  apply (derivable_pt_lim_minus id (fct_cte y)).
  - apply derivable_pt_lim_id.
  - apply derivable_pt_lim_const.
Qed.

Lemma d_scal_r (x y : R) : derivable_pt_lim (fun x' => x' * y) x y.
Proof.
  apply (dlim_value _ _ (1 * y + x * 0)); [lra|].
  apply (derivable_pt_lim_mult id (fct_cte y)).
  - apply derivable_pt_lim_id.
  - apply derivable_pt_lim_const.
Qed.

Lemma d_scal_l (x y : R) : derivable_pt_lim (fun y' => x * y') y x.
Proof.
  apply (dlim_value _ _ (0 * y + x * 1)); [lra|].
  apply (derivable_pt_lim_mult (fct_cte x) id).
  - apply derivable_pt_lim_const.
  - apply derivable_pt_lim_id.
Qed.

Lemma d_div_l (x y : R) : y <> 0 -> derivable_pt_lim (fun x' => x' / y) x (1 / y).
Proof.
  intros Hy.
  apply (dlim_value _ _ (/ y)); [lra|].
  apply (derivable_pt_lim_ext (fun x' => x' * / y)); [reflexivity|].
  apply d_scal_r.
Qed.

Lemma d_inv (x c : R) : x <> 0 ->
  derivable_pt_lim (fun x' => c / x') x (- (c / x) / x).
Proof.
  intros Hx.
  apply (dlim_value _ _ ((0 * x - 1 * c) / Rsqr x)); [unfold Rsqr; now field|].
  apply (derivable_pt_lim_div (fct_cte c) id); [| |exact Hx].
  - apply derivable_pt_lim_const.
  - apply derivable_pt_lim_id.
Qed.

Lemma d_opp (x : R) : derivable_pt_lim (fun x' => - x') x (-1).
Proof.
  apply (dlim_value _ _ (- 1)); [lra|].
  apply (derivable_pt_lim_opp id), derivable_pt_lim_id.
Qed.

Lemma d_ln (x : R) : 0 < x -> derivable_pt_lim ln x (1 / x).
Proof.
  intros H; apply (dlim_value _ _ (/ x)); [lra|].
  now apply derivable_pt_lim_ln.
Qed.

Lemma d_pow_base (x y : R) : 0 < x ->
  derivable_pt_lim (fun x' => pow x' y) x (y * pow x (y - 1)).
Proof.
  intros H; rewrite pow_pos by assumption.
  apply (derivable_pt_lim_locally_ext (fun x' => Rpower x' y) _ x (x / 2) (x + 1));
    [lra| |now apply derivable_pt_lim_power].
  intros z Hz; symmetry; apply pow_pos; lra.
Qed.

Lemma d_pow_exponent (x y : R) : 0 < x ->
  derivable_pt_lim (fun y' => pow x y') y (ln x * pow x y).
Proof.
  intros H; rewrite pow_pos by assumption.
  apply (derivable_pt_lim_ext (comp exp (fun y' => y' * ln x)));
    [intros z; now rewrite pow_pos|].
  unfold Rpower; rewrite Rmult_comm.
  apply (derivable_pt_lim_comp (fun y' => y' * ln x) exp).
  - apply d_scal_r.
  - apply derivable_pt_lim_exp.
Qed.

Lemma d_sqrt (x : R) : 0 < x -> derivable_pt_lim sqrt x (1 / (sqrt x + sqrt x)).
Proof.
  intros H.
  assert (0 < sqrt x) by now apply sqrt_lt_R0.
  apply (dlim_value _ _ (/ (2 * sqrt x))); [field; lra|].
  now apply derivable_pt_lim_sqrt.
Qed.

Lemma d_tan (x : R) : cos x <> 0 ->
  derivable_pt_lim tan x (1 / (cos x * cos x)).
Proof.
  intros H.
  apply (dlim_value _ _ ((cos x * cos x - - sin x * sin x) / Rsqr (cos x))).
  - pose proof (sin2_cos2 x) as E; unfold Rsqr in *.
    replace (cos x * cos x - - sin x * sin x) with 1 by lra.
    reflexivity.
  - apply (derivable_pt_lim_div sin cos); [| |exact H].
    + apply derivable_pt_lim_sin.
    + apply derivable_pt_lim_cos.
Qed.

Lemma d_asin (x : R) : -1 < x < 1 ->
  derivable_pt_lim asin x (1 / sqrt (1 - x * x)).
Proof.
  intros H.
  apply (derive_pt_eq_1 asin x _ (derivable_pt_asin x H)).
  apply derive_pt_asin.
Qed.

Lemma d_acos (x : R) : -1 < x < 1 ->
  derivable_pt_lim acos x (-1 / sqrt (1 - x * x)).
Proof.
  intros H.
  apply (derive_pt_eq_1 acos x _ (derivable_pt_acos x H)).
  apply derive_pt_acos.
Qed.

Lemma d_atan (x : R) : derivable_pt_lim atan x (1 / (1 + x * x)).
Proof.
  apply (dlim_value _ _ (/ (1 + x ^ 2))).
  - unfold Rdiv; rewrite Rmult_1_l; f_equal; ring.
  - apply derivable_pt_lim_atan.
Qed.

Lemma d_tanh (x : R) : derivable_pt_lim tanh x (1 - tanh x * tanh x).
Proof.
  pose proof (cosh_nonzero x) as H.
  apply (dlim_value _ _ ((cosh x * cosh x - sinh x * sinh x) / Rsqr (cosh x))).
  - unfold tanh, Rsqr; now field.
  - apply (derivable_pt_lim_div sinh cosh); [| |exact H].
    + apply derivable_pt_lim_sinh.
    + apply derivable_pt_lim_cosh.
Qed.

Lemma d_step (x : R) : x <> 0 ->
  derivable_pt_lim (fun x' => bool_to_R (Rgeb x' 0)) x 0.
Proof.
  intros H; destruct (Rlt_le_dec x 0) as [Hn|Hp].
  - apply (dlim_local_const 0 _ x (x - 1) 0); [lra|].
    intros z Hz; unfold Rgeb; destruct (Rle_dec 0 z); [lra|reflexivity].
  - apply (dlim_local_const 1 _ x 0 (x + 1)); [lra|].
    intros z Hz; unfold Rgeb; destruct (Rle_dec 0 z); [reflexivity|lra].
Qed.

Lemma d_floor (x : R) : (forall n : Z, IZR n <> x) -> derivable_pt_lim floor x 0.
Proof.
  intros H; apply not_integer_between in H.
  apply (dlim_local_const (IZR (Int_part x)) _ x _ _ H).
  intros z Hz; now apply floor_between.
Qed.

Lemma d_ceil (x : R) : (forall n : Z, IZR n <> x) -> derivable_pt_lim ceil x 0.
Proof.
  intros H.
  assert (H' : forall n : Z, IZR n <> - x).
  { intros n E; apply (H (- n)%Z); rewrite opp_IZR; lra. }
  apply not_integer_between in H'.
  set (k := Int_part (- x)) in *.
  apply (dlim_local_const (- IZR k) _ x (- (IZR k + 1)) (- IZR k)); [lra|].
  intros z Hz; unfold ceil; f_equal.
  apply (floor_between k (- z)); lra.
Qed.

Lemma d_equality_l (x y : R) : x <> y ->
  derivable_pt_lim (fun x' => bool_to_R (Reqb x' y)) x 0.
Proof.
  intros H; destruct (Rlt_le_dec x y) as [Hlt|Hge].
  - apply (dlim_local_const 0 _ x (x - 1) y); [lra|].
    intros z Hz; unfold Reqb; destruct (Req_dec_T z y); [lra|reflexivity].
  - apply (dlim_local_const 0 _ x y (x + 1)); [lra|].
    intros z Hz; unfold Reqb; destruct (Req_dec_T z y); [lra|reflexivity].
Qed.

Lemma d_equality_r (x y : R) : x <> y ->
  derivable_pt_lim (fun y' => bool_to_R (Reqb x y')) y 0.
Proof.
  intros H; destruct (Rlt_le_dec x y) as [Hlt|Hge].
  - apply (dlim_local_const 0 _ y x (y + 1)); [lra|].
    intros z Hz; unfold Reqb; destruct (Req_dec_T x z); [lra|reflexivity].
  - apply (dlim_local_const 0 _ y (y - 1) x); [lra|].
    intros z Hz; unfold Reqb; destruct (Req_dec_T x z); [lra|reflexivity].
Qed.

Lemma d_min_l (x y : R) : x <> y ->
  derivable_pt_lim (fun x' => Rmin x' y) x (bool_to_R (Rleb x y)).
Proof.
  intros H; unfold Rleb; destruct (Rle_dec x y) as [Hle|Hgt]; simpl.
  - apply (dlim_local_id _ x (x - 1) y); [lra|].
    intros z Hz; apply Rmin_left; lra.
  - apply (dlim_local_const y _ x y (x + 1)); [lra|].
    intros z Hz; apply Rmin_right; lra.
Qed.

Lemma d_min_r (x y : R) : x <> y ->
  derivable_pt_lim (fun y' => Rmin x y') y
    (bool_to_R (Reqb (bool_to_R (Rleb x y)) 0)).
Proof.
  intros H; unfold Rleb, Reqb; destruct (Rle_dec x y) as [Hle|Hgt]; simpl.
  - destruct (Req_dec_T 1 0); [lra|simpl].
    apply (dlim_local_const x _ y x (y + 1)); [lra|].
    intros z Hz; apply Rmin_left; lra.
  - destruct (Req_dec_T 0 0); [simpl|lra].
    apply (dlim_local_id _ y (y - 1) x); [lra|].
    intros z Hz; apply Rmin_right; lra.
Qed.

Lemma d_max_l (x y : R) : x <> y ->
  derivable_pt_lim (fun x' => Rmax x' y) x (bool_to_R (Rgeb x y)).
Proof.
  intros H; unfold Rgeb; destruct (Rle_dec y x) as [Hle|Hgt]; simpl.
  - apply (dlim_local_id _ x y (x + 1)); [lra|].
    intros z Hz; apply Rmax_left; lra.
  - apply (dlim_local_const y _ x (x - 1) y); [lra|].
    intros z Hz; apply Rmax_right; lra.
Qed.

Lemma d_max_r (x y : R) : x <> y ->
  derivable_pt_lim (fun y' => Rmax x y') y
    (bool_to_R (Reqb (bool_to_R (Rgeb x y)) 0)).
Proof.
  intros H; unfold Rgeb, Reqb; destruct (Rle_dec y x) as [Hle|Hgt]; simpl.
  - destruct (Req_dec_T 1 0); [lra|simpl].
    apply (dlim_local_const x _ y (y - 1) x); [lra|].
    intros z Hz; apply Rmax_left; lra.
  - destruct (Req_dec_T 0 0); [simpl|lra].
    apply (dlim_local_id _ y x (y + 1)); [lra|].
    intros z Hz; apply Rmax_right; lra.
Qed.

Lemma d_sub_r (x y : R) : derivable_pt_lim (fun y' => x - y') y (-1).
Proof.
  apply (dlim_value _ _ (0 - 1)); [lra|].
  apply (derivable_pt_lim_minus (fct_cte x) id).
  - apply derivable_pt_lim_const.
  - apply derivable_pt_lim_id.
Qed.

Lemma d_add_r (x y : R) : derivable_pt_lim (fun y' => x + y') y 1.
Proof.
  apply (dlim_value _ _ (0 + 1)); [lra|].
  apply (derivable_pt_lim_plus (fct_cte x) id).
  - apply derivable_pt_lim_const.
  - apply derivable_pt_lim_id.
Qed.

(** Over the reals the first partial is the derivative.  For every
    operation but [ERF], [COSH] and [PRINTME], at every regular point,
    the [d[0]] that [partials] returns at [f = eval(op,x,y)] is the
    derivative of [eval(op, . ,y)] at [x]. *)
Theorem first_partial_is_derivative (I : Operation) (x y f0 : R) (d : R * R) :
  In I first_partial_exact -> regular I x y ->
  derivable_pt_lim (fun x' => eval (op_code I) x' y f0) x
    (fst (partials (op_code I) x y (eval (op_code I) x y f0) d)).
Proof.
  intros HI Hreg.
  destruct I; real_rules;
    try (exfalso; simpl in HI; intuition discriminate);
    rewrite ?SF2R_zero, ?SF2R_one; unfold regular in Hreg.
  - apply d_add.
  - apply d_sub.
  - apply d_scal_r.
  - now apply d_div_l.
  - apply d_opp.
  - apply derivable_pt_lim_exp.
  - now apply d_ln.
  - now apply d_pow_base.
  - now apply d_pow_base.
  - now apply d_sqrt.
  - apply derivable_pt_lim_sin.
  - apply derivable_pt_lim_cos.
  - now apply d_tan.
  - now apply d_asin.
  - now apply d_acos.
  - apply d_atan.
  - now apply d_step.
  - now apply d_floor.
  - now apply d_ceil.
  - now apply d_equality_l.
  - now apply d_min_l.
  - now apply d_max_l.
  - apply (dlim_value _ _ (- (1 / x) / x)); [now field|now apply d_inv].
  - apply derivable_pt_lim_sinh.
  - apply d_tanh.
Qed.

(** Over the reals the second partial is the derivative in [y].  For
    every operation but [CONSTPOW], at every regular point, the [d[1]] that
    [partials] returns at [f = eval(op,x,y)] is the derivative of
    [eval(op,x, . )] at [y] (zero for the operations of one operand and for
    [PRINTME], which ignore [y]). *)
Theorem second_partial_is_derivative (I : Operation) (x y f0 : R) (d : R * R) :
  In I second_partial_exact -> regular I x y ->
  derivable_pt_lim (fun y' => eval (op_code I) x y' f0) y
    (snd (partials (op_code I) x y (eval (op_code I) x y f0) d)).
Proof.
  intros HI Hreg.
  destruct I; real_rules;
    try (exfalso; simpl in HI; intuition discriminate);
    try apply (derivable_pt_lim_const _ y);
    unfold regular in Hreg.
  - apply d_add_r.
  - apply d_sub_r.
  - apply d_scal_l.
  - apply (dlim_value _ _ (- (x / y) / y)); [reflexivity|now apply d_inv].
  - now apply d_pow_exponent.
  - now apply d_equality_r.
  - now apply d_min_r.
  - now apply d_max_r.
Qed.

Lemma sinh_nonzero (x : R) : x <> 0 -> sinh x <> 0.
Proof.
  intros H; unfold sinh.
  destruct (Rlt_le_dec x 0) as [Hn|Hp].
  - assert (exp x < exp (- x)) by (apply exp_increasing; lra); lra.
  - assert (exp (- x) < exp x) by (apply exp_increasing; lra); lra.
Qed.

(** The exclusions above are needed.  At every [x <> 0] the first partial
    returned for [COSH] is not the derivative of [cosh] (it is its
    opposite), and the one returned for [PRINTME] is not the derivative of
    the identity; at every [x > 0], [x <> 1], the second partial [0] of
    [CONSTPOW] is not the derivative of [pow(x, . )]. *)
Theorem excluded_rules_are_not_derivatives (x y f0 : R) (d : R * R) :
  (x <> 0 ->
   ~ derivable_pt_lim (fun x' => eval (op_code COSH) x' y f0) x
       (fst (partials (op_code COSH) x y (eval (op_code COSH) x y f0) d))) /\
  (x <> 0 ->
   ~ derivable_pt_lim (fun x' => eval (op_code PRINTME) x' y f0) x
       (fst (partials (op_code PRINTME) x y (eval (op_code PRINTME) x y f0) d))) /\
  (0 < x -> x <> 1 ->
   ~ derivable_pt_lim (fun y' => eval (op_code CONSTPOW) x y' f0) y
       (snd (partials (op_code CONSTPOW) x y (eval (op_code CONSTPOW) x y f0) d))).
Proof.
  real_rules; repeat split.
  - intros Hx H.
    pose proof (uniqueness_limite _ _ _ _ H (derivable_pt_lim_cosh x)) as E.
    pose proof (sinh_nonzero x Hx); lra.
  - intros Hx H.
    pose proof (uniqueness_limite _ _ _ _ H (derivable_pt_lim_id x)) as E.
    assert (x * x = 0) by lra.
    apply Rmult_integral in H0; tauto.
  - intros Hx Hx1 H.
    pose proof (uniqueness_limite _ _ _ _ H (d_pow_exponent x y Hx)) as E.
    rewrite pow_pos in E by assumption.
    pose proof (ln_neq_0 x Hx1 Hx).
    pose proof (exp_pos (y * ln x)); unfold Rpower in E.
    symmetry in E; apply Rmult_integral in E; lra.
Qed.

(** The seven rules of [rules_reading_f] do depend on the function value:
    for each there are operands and two values of [f] giving different
    partials; for every other operation there are none. *)
Theorem partials_read_f_exactly (I : Operation) :
  In I rules_reading_f <->
  exists x y f f' : R,
    forall d : R * R,
      partials (op_code I) x y f d <> partials (op_code I) x y f' d.
Proof.
  split.
  - intros H; exists (exp 1), 1, 1, 2; intros d E.
    simpl in H.
    repeat (destruct H as [<-|H]; [|]); try contradiction;
      cbv [partials derNew case_label op_code BinaryOperation_der
           UnaryOperation_der store frame loc_eqb Nat.eqb at_index Nat.add
           fst snd timesTwo square scalar of_int
           Tadd Tsub Tmul Tdiv Tneg Tpow Tlog] in E;
      injection E; try rewrite ln_exp; intros; lra.
  - intros (x & y & f & f' & H).
    destruct I; try (simpl; tauto); exfalso; apply (H (0, 0)); reflexivity.
Qed.


(** *** The store theorems at concrete real operands *)

Lemma derNew_effect_witness :
  let d := Caller 2 in
  let m' := derNew (op_code DIV) (Caller 0) (Caller 1) (Caller 0) d six_two in
  (m' d.[0], m' d.[1]) =
  partials (op_code DIV) 6 2 6 (six_two d.[0], six_two d.[1]) /\
  (forall l : loc, l <> d.[0] -> l <> d.[1] -> m' l = six_two l).
Proof.
  apply (derNew_effect (op_code DIV) (Caller 0) (Caller 1) (Caller 0) 2%nat six_two);
    discriminate.
Defined.

Lemma derFNew_frame_witness :
  derFNew (op_code DIV) (Caller 0) (Caller 1) (Caller 0) (Caller 2) six_two (Caller 1) =
  six_two (Caller 1).
Proof.
  apply (derFNew_frame (op_code DIV) (Caller 0) (Caller 1) (Caller 0) (Caller 2)
                       six_two 1%nat);
    discriminate.
Defined.

Lemma derFNew_out_of_range_witness :
  derFNew 200 (Caller 0) (Caller 1) (Caller 0) (Caller 2) six_two =
  six_two{{Caller 0 <- six_two Local}}.
Proof.
  apply (derFNew_out_of_range 200 (Caller 0) (Caller 1) (Caller 0) (Caller 2) six_two).
  unfold NUM_BUILT_IN_OPS; lia.
Defined.

Lemma unary_ignores_second_operand_witness :
  funNew (op_code TANH) (Caller 0) (Caller 1) (Caller 2) six_two =
  funNew (op_code TANH) (Caller 0) (Caller 5) (Caller 2) six_two /\
  derNew (op_code TANH) (Caller 0) (Caller 1) (Caller 2) (Caller 3) six_two =
  derNew (op_code TANH) (Caller 0) (Caller 5) (Caller 2) (Caller 3) six_two /\
  derFNew (op_code TANH) (Caller 0) (Caller 1) (Caller 2) (Caller 3) six_two =
  derFNew (op_code TANH) (Caller 0) (Caller 5) (Caller 2) (Caller 3) six_two.
Proof.
  exact (unary_ignores_second_operand TANH (Caller 0) (Caller 1) (Caller 5)
           (Caller 2) (Caller 3) six_two eq_refl).
Defined.

Lemma derFNew_is_funNew_then_derNew_witness :
  derFNew (op_code DIV) (Caller 0) (Caller 1) (Caller 2) (Caller 3) six_two (Caller 4) =
  derNew (op_code DIV) (Caller 0) (Caller 1) (Caller 2) (Caller 3)
         (funNew (op_code DIV) (Caller 0) (Caller 1) (Caller 2) six_two) (Caller 4).
Proof.
  apply (derFNew_is_funNew_then_derNew DIV 0 1 2 3 4 six_two); lia.
Defined.

Lemma partials_ignore_f_witness :
  partials (op_code ADD) 1 2 3 (0, 0) = partials (op_code ADD) 1 2 4 (0, 0).
Proof.
  apply (partials_ignore_f ADD 1 2 3 4 (0, 0)).
  simpl; intuition discriminate.
Defined.

Lemma first_partial_is_derivative_witness :
  derivable_pt_lim (fun x' => eval (op_code DIV) x' 2 0) 6
    (fst (partials (op_code DIV) 6 2 (eval (op_code DIV) 6 2 0) (0, 0))).
Proof.
  apply (first_partial_is_derivative DIV 6 2 0 (0, 0)).
  - simpl; tauto.
  - simpl; lra.
Defined.

Lemma second_partial_is_derivative_witness :
  derivable_pt_lim (fun y' => eval (op_code DIV) 6 y' 0) 2
    (snd (partials (op_code DIV) 6 2 (eval (op_code DIV) 6 2 0) (0, 0))).
Proof.
  apply (second_partial_is_derivative DIV 6 2 0 (0, 0)).
  - simpl; tauto.
  - simpl; lra.
Defined.

End Calculus.

(* ------------------------------------------------------------------ *)
(** * The selectors of [FMIN] and [FMAX] on [double] *)

Module Float64Partials.

Import Float64 Float64Facts.

Section WithLibm.

Variable lm : Libm.

Lemma leb_nan_l (x y : float) : PrimFloat.is_nan x = true -> (x <=? y)%float = false.
Proof.
  unfold PrimFloat.is_nan; rewrite leb_spec, FloatAxioms.eqb_spec.
  unfold SFleb, SFeqb.
  destruct (Prim2SF x) as [s|s| |s m e]; simpl; try reflexivity;
    try (destruct s; discriminate).
  rewrite Z.compare_refl, Pos.compare_cont_refl; destruct s; discriminate.
Qed.

Lemma leb_nan_r (x y : float) : PrimFloat.is_nan y = true -> (x <=? y)%float = false.
Proof.
  unfold PrimFloat.is_nan; rewrite leb_spec, FloatAxioms.eqb_spec.
  unfold SFleb, SFeqb.
  destruct (Prim2SF y) as [s|s| |s m e]; simpl;
    try (destruct (Prim2SF x); reflexivity);
    try (destruct s; discriminate).
  rewrite Z.compare_refl, Pos.compare_cont_refl; destruct s; discriminate.
Qed.

Lemma eqb_leb (x y : float) :
  (x =? y)%float = true -> (x <=? y)%float = true /\ (y <=? x)%float = true.
Proof.
  rewrite !leb_spec, FloatAxioms.eqb_spec; unfold SFeqb, SFleb.
  destruct (SFcompare (Prim2SF x) (Prim2SF y)) as [[| |]|] eqn:E;
    try discriminate; intros _; split; [reflexivity|].
  revert E.
  destruct (Prim2SF x) as [s1|s1| |s1 m1 e1], (Prim2SF y) as [s2|s2| |s2 m2 e2];
    unfold SFcompare; try destruct s1; try destruct s2; try discriminate;
    try reflexivity.
  - rewrite (Z.compare_antisym e1 e2).
    change (Pos.compare_cont Eq m2 m1) with (Pos.compare m2 m1).
    change (Pos.compare_cont Eq m1 m2) with (Pos.compare m1 m2).
    rewrite (Pos.compare_antisym m1 m2).
    destruct (e1 ?= e2); try discriminate; simpl.
    destruct (m1 ?= m2)%positive; try discriminate; reflexivity.
  - rewrite (Z.compare_antisym e1 e2).
    change (Pos.compare_cont Eq m2 m1) with (Pos.compare m2 m1).
    change (Pos.compare_cont Eq m1 m2) with (Pos.compare m1 m2).
    rewrite (Pos.compare_antisym m1 m2).
    destruct (e1 ?= e2); try discriminate; simpl.
    destruct (m1 ?= m2)%positive; try discriminate; reflexivity.
Qed.

(** The partials of [FMIN] and [FMAX] on [double]s select one operand:
    they are [(1,0)] or [(0,1)] for all operands, infinities and NaN
    included -- [(1,0)] for [FMIN] exactly when [x <= y], for [FMAX] exactly
    when [x >= y].  On a tie ([x == y], which includes [+0] against [-0])
    both attribute the derivative to the first operand; when an operand is
    NaN both attribute it to the second. *)
Theorem partials_FMIN_FMAX_select (x y f : float) (d : float * float) :
  let pmin := partials (S := scalar lm) (op_code FMIN) x y f d in
  let pmax := partials (S := scalar lm) (op_code FMAX) x y f d in
  pmin = (if (x <=? y)%float then (1%float, 0%float) else (0%float, 1%float)) /\
  pmax = (if (y <=? x)%float then (1%float, 0%float) else (0%float, 1%float)) /\
  ((x =? y)%float = true -> pmin = (1%float, 0%float) /\ pmax = (1%float, 0%float)) /\
  (PrimFloat.is_nan x = true \/ PrimFloat.is_nan y = true ->
   pmin = (0%float, 1%float) /\ pmax = (0%float, 1%float)).
Proof.
  intros pmin pmax.
  assert (Emin : pmin = if (x <=? y)%float then (1%float, 0%float)
                        else (0%float, 1%float))
    by (subst pmin; unfold partials, derNew; simpl;
        destruct (x <=? y)%float; reflexivity).
  assert (Emax : pmax = if (y <=? x)%float then (1%float, 0%float)
                        else (0%float, 1%float))
    by (subst pmax; unfold partials, derNew; simpl;
        destruct (y <=? x)%float; reflexivity).
  rewrite Emin, Emax; repeat split.
  - apply eqb_leb in H as [-> _]; reflexivity.
  - apply eqb_leb in H as [_ ->]; reflexivity.
  - destruct H as [H|H];
      [rewrite (leb_nan_l x y H)|rewrite (leb_nan_r x y H)]; reflexivity.
  - destruct H as [H|H];
      [rewrite (leb_nan_r y x H)|rewrite (leb_nan_l y x H)]; reflexivity.
Qed.
End WithLibm.

End Float64Partials.
